(** * libjpeg-turbo: MIPS64 capability probe and TurboJPEG format tables

    A shallow embedding of

    - [simd/mips64/jsimdcpu.c]: [check_feature], [parse_proc_cpuinfo] and
      [jpeg_simd_cpu_support];
    - [turbojpeg.h]: the pixel-format and subsampling tables and the macros
      [TJPAD] and [TJSCALED].

    C strings are [string]s (the terminating NUL is implicit), a [char *]
    into a string is the suffix it points at, C [int]s are [Z] with the
    range of the type written out where it matters. *)

From Stdlib Require Import ZArith List Sorted Bool Lia Ascii String QArith Qround.
Import ListNotations.

Local Open Scope string_scope.
Local Open Scope Z_scope.

(* ===================================================================== *)
(** * The C library functions the probe uses *)
(* ===================================================================== *)

Module LibC.

(** [isspace] in the "C" locale: space, and the controls \t \n \v \f \r. *)
Definition isspace (c : ascii) : bool :=
  let n := N_of_ascii c in
  (n =? 32)%N || ((9 <=? n)%N && (n <=? 13)%N).

(** The NUL character. *)
Definition NUL : ascii := Ascii.zero.

(** The newline character. *)
Definition LF : ascii := ascii_of_N 10.

Definition strlen (s : string) : nat := String.length s.

(** [p + n] for a pointer [p] into a string (staying inside it). *)
Fixpoint advance (n : nat) (s : string) : string :=
  match n, s with
  | O, _ => s
  | S n', String _ s' => advance n' s'
  | S _, EmptyString => EmptyString
  end.

(** [*(p + n)]: the character at offset [n], the terminator at the end. *)
Definition deref (s : string) (n : nat) : ascii :=
  match String.get n s with
  | Some c => c
  | None => NUL
  end.

(** [strncmp]: difference of the first differing bytes among the first
    [n], zero when there is none. *)
Fixpoint strncmp (s1 s2 : string) (n : nat) : Z :=
  match n with
  | O => 0
  | S n' =>
    match s1, s2 with
    | EmptyString, EmptyString => 0
    | EmptyString, String c2 _ => - Z.of_N (N_of_ascii c2)
    | String c1 _, EmptyString => Z.of_N (N_of_ascii c1)
    | String c1 r1, String c2 r2 =>
      if Ascii.eqb c1 c2 then strncmp r1 r2 n'
      else Z.of_N (N_of_ascii c1) - Z.of_N (N_of_ascii c2)
    end
  end.

(** [strstr haystack needle]: offset of the first occurrence, [None] for
    the null pointer. *)
Fixpoint strstr (haystack needle : string) : option nat :=
  if String.prefix needle haystack then Some O
  else match haystack with
       | EmptyString => None
       | String _ h' => option_map S (strstr h' needle)
       end.

(** [strchr s c != NULL] for a character [c] other than NUL. *)
Fixpoint strchr (s : string) (c : ascii) : bool :=
  match s with
  | EmptyString => false
  | String d s' => Ascii.eqb d c || strchr s' c
  end.

(** What a C function sees of a byte buffer: the bytes before the first
    NUL. *)
Fixpoint cstr (raw : string) : string :=
  match raw with
  | EmptyString => EmptyString
  | String c r => if Ascii.eqb c NUL then EmptyString else String c (cstr r)
  end.

End LibC.

(* ===================================================================== *)
(** * simd/mips64/jsimdcpu.c *)
(* ===================================================================== *)

Module JSimdCpu.
Import LibC.

Definition SOMEWHAT_SANE_PROC_CPUINFO_SIZE_LIMIT : Z := 1024 * 1024.

(** ** [check_feature] *)

(** [while (isspace( *buffer)) buffer++;] *)
Fixpoint skip_spaces (buffer : string) : string :=
  match buffer with
  | EmptyString => EmptyString
  | String c r => if isspace c then skip_spaces r else buffer
  end.

(** Outcome of one pass through the body of the search loop. *)
Inductive iteration : Type :=
| Return (b : bool)   (* leave the function with this value *)
| Continue.           (* [buffer++; continue;] *)

(** The loop condition and body of
    [while ((p = strstr(buffer, feature))) { ... }]. *)
Definition search_body (buffer feature : string) : iteration :=
  match strstr buffer feature with
  | None => Return false
  | Some p =>
    if (0 <? p)%nat && negb (isspace (deref buffer (p - 1))) then Continue
    else
      let p := (p + strlen feature)%nat in
      if negb (Ascii.eqb (deref buffer p) NUL) && negb (isspace (deref buffer p))
      then Continue
      else Return true
  end.

(** The search loop.  [Continue] is only ever produced on a non-empty
    buffer when [feature] is not empty (see [search_body_empty]). *)
Fixpoint search_loop (buffer feature : string) {struct buffer} : bool :=
  match search_body buffer feature with
  | Return b => b
  | Continue =>
    match buffer with
    | EmptyString => false
    | String _ buffer' => search_loop buffer' feature
    end
  end.

Definition check_feature (buffer feature : string) : bool :=
  if Ascii.eqb (deref feature 0) NUL then false
  else if negb (strncmp buffer "ASEs implemented" 16 =? 0) then false
  else
    let buffer := advance 16 buffer in
    let buffer := skip_spaces buffer in
    search_loop buffer feature.

(** ** The environment of the probe *)

(** What one call of [parse_proc_cpuinfo] finds: whether its [malloc]
    succeeds, and the bytes of [/proc/cpuinfo] if [fopen] can open it. *)
Record World : Type := {
  malloc_succeeds : bool;
  proc_cpuinfo : option string
}.

(** An open stream: the bytes not read yet and the end-of-file
    indicator. *)
Record FILE : Type := {
  pending : string;
  eof_flag : bool
}.

Definition fopen (w : World) : option FILE :=
  match proc_cpuinfo w with
  | Some bytes => Some {| pending := bytes; eof_flag := false |}
  | None => None
  end.

Definition feof (fd : FILE) : bool := eof_flag fd.

(** The read loop of [fgets]: at most [n] characters, stopping after a
    newline or at the end of the stream.  Result: the characters stored,
    the stream left over, and whether the end of the stream was hit. *)
Fixpoint fgets_chars (n : nat) (input : string) : string * string * bool :=
  match n with
  | O => (EmptyString, input, false)
  | S n' =>
    match input with
    | EmptyString => (EmptyString, EmptyString, true)
    | String c rest =>
      if Ascii.eqb c LF then (String c EmptyString, rest, false)
      else
        let '(line, rest', hit) := fgets_chars n' rest in
        (String c line, rest', hit)
    end
  end.

(** [fgets(buffer, bufsize, fd)]: [None] is the null pointer (nothing
    read before the end of the stream, or no room at all), otherwise the
    bytes stored in the buffer.  With [bufsize = 1] only the terminator
    is stored and the stream is left alone. *)
Definition fgets (bufsize : Z) (fd : FILE) : option string * FILE :=
  if bufsize <=? 0 then (None, fd)
  else
    let '(line, rest, hit) := fgets_chars (Z.to_nat (bufsize - 1)) (pending fd) in
    let fd' := {| pending := rest; eof_flag := eof_flag fd || hit |} in
    match line with
    | EmptyString => if hit then (None, fd') else (Some EmptyString, fd')
    | String _ _ => (Some line, fd')
    end.

Section Probe.

(** The capability bit of [jsimd.h]; the probe is modelled for any value
    of it. *)
Variable JSIMD_MMI : Z.

(** ** [parse_proc_cpuinfo] *)

(** The [while (fgets(buffer, bufsize, fd))] loop, with the value of
    [*simd_support] threaded through.  [Some (ok, mask)] is the value
    the function returns and the mask it leaves; [None] means the fuel
    ran out. *)
Fixpoint read_lines (fuel : nat) (bufsize : Z) (fd : FILE) (simd_support : Z)
  : option (bool * Z) :=
  match fuel with
  | O => None
  | S fuel' =>
    match fgets bufsize fd with
    | (None, _) => Some (true, simd_support)
    | (Some raw, fd') =>
      let buffer := cstr raw in
      if negb (strchr buffer LF) && negb (feof fd')
      then Some (false, simd_support)
      else
        let simd_support :=
          if check_feature buffer "loongson-mmi"
          then Z.lor simd_support JSIMD_MMI
          else simd_support in
        read_lines fuel' bufsize fd' simd_support
    end
  end.

(** [parse_proc_cpuinfo(bufsize, &simd_support)] in world [w];
    [simd_support] is the value the pointer holds on entry. *)
Definition parse_proc_cpuinfo (bufsize : Z) (w : World) (simd_support : Z)
  : option (bool * Z) :=
  let simd_support := 0 in
  if negb (malloc_succeeds w) then Some (false, simd_support)
  else
    match fopen w with
    | Some fd =>
      read_lines (S (String.length (pending fd))) bufsize fd simd_support
    | None => Some (true, simd_support)
    end.

(** ** [jpeg_simd_cpu_support] *)

(** The three ways the preprocessor can configure the function. *)
Inductive Build : Type :=
| Loongson_vector_rev   (* __mips_loongson_vector_rev defined *)
| Linux                 (* not defined, __linux__ defined *)
| Other_platform.       (* neither *)

(** [while (!parse_proc_cpuinfo(bufsize, &simd_support)) { ... }];
    [env n] is the world the call number [n] runs in. *)
Fixpoint retry_loop (fuel : nat) (env : nat -> World) (call : nat)
         (bufsize : Z) (simd_support : Z) : option Z :=
  match fuel with
  | O => None
  | S fuel' =>
    match parse_proc_cpuinfo bufsize (env call) simd_support with
    | None => None
    | Some (true, simd_support) => Some simd_support
    | Some (false, simd_support) =>
      let bufsize := bufsize * 2 in
      if bufsize >? SOMEWHAT_SANE_PROC_CPUINFO_SIZE_LIMIT
      then Some simd_support
      else retry_loop fuel' env (S call) bufsize simd_support
    end
  end.

Definition jpeg_simd_cpu_support (b : Build) (env : nat -> World) : option Z :=
  let simd_support := 0 in
  match b with
  | Loongson_vector_rev => Some (Z.lor simd_support JSIMD_MMI)
  | Linux =>
    let bufsize := 1024 in
    retry_loop 32 env 0 bufsize simd_support
  | Other_platform => Some simd_support
  end.

End Probe.

End JSimdCpu.

(* ===================================================================== *)
(** * turbojpeg.h *)
(* ===================================================================== *)

Module TurboJpeg.

(** ** C [int] arithmetic

    Signed overflow and division by zero are undefined: an operation
    that would leave the range has no result. *)

Definition INT_MIN : Z := - 2 ^ 31.
Definition INT_MAX : Z := 2 ^ 31 - 1.

Definition int_result (z : Z) : option Z :=
  if (INT_MIN <=? z) && (z <=? INT_MAX) then Some z else None.

Definition int_bind (x : option Z) (k : Z -> option Z) : option Z :=
  match x with
  | Some v => k v
  | None => None
  end.

Notation "x <- e ;; k" := (int_bind e (fun x => k))
  (at level 61, e at next level, right associativity).

Definition int_add (a b : Z) : option Z := int_result (a + b).
Definition int_sub (a b : Z) : option Z := int_result (a - b).
Definition int_mul (a b : Z) : option Z := int_result (a * b).
Definition int_div (a b : Z) : option Z :=
  if b =? 0 then None else int_result (Z.quot a b).

(** Reading [a[i]] in a constant table; outside the table there is no
    result. *)
Definition aref (a : list Z) (i : Z) : option Z :=
  if i <? 0 then None else nth_error a (Z.to_nat i).

(** ** Chrominance subsampling *)

Definition TJ_NUMSAMP : Z := 6.

Inductive TJSAMP : Type :=
| TJSAMP_444 | TJSAMP_422 | TJSAMP_420 | TJSAMP_GRAY | TJSAMP_440 | TJSAMP_411.

Definition TJSAMP_value (s : TJSAMP) : Z :=
  match s with
  | TJSAMP_444 => 0 | TJSAMP_422 => 1 | TJSAMP_420 => 2
  | TJSAMP_GRAY => 3 | TJSAMP_440 => 4 | TJSAMP_411 => 5
  end.

Definition tjMCUWidth : list Z := [8; 16; 16; 8; 8; 32].
Definition tjMCUHeight : list Z := [8; 8; 16; 8; 16; 8].

(** The subsampling factors of the "YUV Image Format Notes": horizontally
    1 for 4:4:4, grayscale and 4:4:0, 2 for 4:2:2 and 4:2:0, 4 for 4:1:1;
    vertically 1 for 4:4:4, 4:2:2, grayscale and 4:1:1, 2 for 4:2:0 and
    4:4:0. *)
Definition horizontal_factor (s : TJSAMP) : Z :=
  match s with
  | TJSAMP_444 | TJSAMP_GRAY | TJSAMP_440 => 1
  | TJSAMP_422 | TJSAMP_420 => 2
  | TJSAMP_411 => 4
  end.

Definition vertical_factor (s : TJSAMP) : Z :=
  match s with
  | TJSAMP_444 | TJSAMP_422 | TJSAMP_GRAY | TJSAMP_411 => 1
  | TJSAMP_420 | TJSAMP_440 => 2
  end.

(** ** Pixel formats *)

Definition TJ_NUMPF : Z := 12.

Inductive TJPF : Type :=
| TJPF_RGB | TJPF_BGR | TJPF_RGBX | TJPF_BGRX | TJPF_XBGR | TJPF_XRGB
| TJPF_GRAY | TJPF_RGBA | TJPF_BGRA | TJPF_ABGR | TJPF_ARGB | TJPF_CMYK
| TJPF_UNKNOWN.

Definition TJPF_value (f : TJPF) : Z :=
  match f with
  | TJPF_RGB => 0 | TJPF_BGR => 1 | TJPF_RGBX => 2 | TJPF_BGRX => 3
  | TJPF_XBGR => 4 | TJPF_XRGB => 5 | TJPF_GRAY => 6 | TJPF_RGBA => 7
  | TJPF_BGRA => 8 | TJPF_ABGR => 9 | TJPF_ARGB => 10 | TJPF_CMYK => 11
  | TJPF_UNKNOWN => -1
  end.

Definition tjRedOffset : list Z := [0; 2; 0; 2; 3; 1; -1; 0; 2; 3; 1; -1].
Definition tjGreenOffset : list Z := [1; 1; 1; 1; 2; 2; -1; 1; 1; 2; 2; -1].
Definition tjBlueOffset : list Z := [2; 0; 2; 0; 1; 3; -1; 2; 0; 1; 3; -1].
Definition tjAlphaOffset : list Z := [-1; -1; -1; -1; -1; -1; -1; 3; 3; 0; 0; -1].
Definition tjPixelSize : list Z := [3; 3; 4; 4; 4; 4; 1; 4; 4; 4; 4; 4].

(** The bytes of a pixel, lowest address first, as the comments of
    [enum TJPF] describe each format. *)
Inductive component : Type :=
| Red | Green | Blue | Alpha | Ignored | Luminance
| Cyan | Magenta | Yellow | Key.

Definition pixel_bytes (f : TJPF) : list component :=
  match f with
  | TJPF_RGB => [Red; Green; Blue]
  | TJPF_BGR => [Blue; Green; Red]
  | TJPF_RGBX => [Red; Green; Blue; Ignored]
  | TJPF_BGRX => [Blue; Green; Red; Ignored]
  | TJPF_XBGR => [Ignored; Blue; Green; Red]
  | TJPF_XRGB => [Ignored; Red; Green; Blue]
  | TJPF_GRAY => [Luminance]
  | TJPF_RGBA => [Red; Green; Blue; Alpha]
  | TJPF_BGRA => [Blue; Green; Red; Alpha]
  | TJPF_ABGR => [Alpha; Blue; Green; Red]
  | TJPF_ARGB => [Alpha; Red; Green; Blue]
  | TJPF_CMYK => [Cyan; Magenta; Yellow; Key]
  | TJPF_UNKNOWN => []
  end.

(** ** Scaling *)

Record tjscalingfactor : Type := {
  num : Z;
  denom : Z
}.

(** [#define TJPAD(width)  (((width) + 3) & (~3))] *)
Definition TJPAD (width : Z) : option Z :=
  w3 <- int_add width 3 ;;
  Some (Z.land w3 (Z.lnot 3)).

(** [#define TJSCALED(dimension, scalingFactor)
       (((dimension) * scalingFactor.num + scalingFactor.denom - 1) /
        scalingFactor.denom)] *)
Definition TJSCALED (dimension : Z) (scalingFactor : tjscalingfactor) : option Z :=
  a <- int_mul dimension (num scalingFactor) ;;
  b <- int_add a (denom scalingFactor) ;;
  c <- int_sub b 1 ;;
  int_div c (denom scalingFactor).

(** Modelled from the spec: the list [tjGetScalingFactors] returns, which
    is defined in turbojpeg.c and only declared in the header.  The spec
    has it ordered largest-first, in lowest terms, running from 2/1 over
    15/8, 1/1 and 7/8 down to 1/8: the sixteen multiples of 1/8. *)
Definition tjGetScalingFactors : list tjscalingfactor :=
  [ {| num := 2; denom := 1 |}; {| num := 15; denom := 8 |};
    {| num := 7; denom := 4 |}; {| num := 13; denom := 8 |};
    {| num := 3; denom := 2 |}; {| num := 11; denom := 8 |};
    {| num := 5; denom := 4 |}; {| num := 9; denom := 8 |};
    {| num := 1; denom := 1 |}; {| num := 7; denom := 8 |};
    {| num := 3; denom := 4 |}; {| num := 5; denom := 8 |};
    {| num := 1; denom := 2 |}; {| num := 3; denom := 8 |};
    {| num := 1; denom := 4 |}; {| num := 1; denom := 8 |} ].

(** Whether [dimension] scaled by the factor stays within [target]. *)
Definition fits (dimension target : Z) (sf : tjscalingfactor) : bool :=
  match TJSCALED dimension sf with
  | Some scaled => scaled <=? target
  | None => false
  end.

(** Modelled from the spec: the choice the decompressor makes (in
    turbojpeg.c) among the supported factors, taken largest-first: the
    first, hence largest, one whose scaled dimension does not exceed the
    requested one. *)
Definition select_scaling_factor (factors : list tjscalingfactor)
           (dimension target : Z) : option tjscalingfactor :=
  find (fits dimension target) factors.

(** ** Flags and transform options *)

Definition TJFLAG_BOTTOMUP : Z := 2.
Definition TJFLAG_FASTUPSAMPLE : Z := 256.
Definition TJFLAG_NOREALLOC : Z := 1024.
Definition TJFLAG_FASTDCT : Z := 2048.
Definition TJFLAG_ACCURATEDCT : Z := 4096.
Definition TJFLAG_STOPONWARNING : Z := 8192.
Definition TJFLAG_PROGRESSIVE : Z := 16384.
Definition TJFLAG_LIMITSCANS : Z := 32768.

Definition TJXOPT_PERFECT : Z := 1.
Definition TJXOPT_TRIM : Z := 2.
Definition TJXOPT_CROP : Z := 4.
Definition TJXOPT_GRAY : Z := 8.
Definition TJXOPT_NOOUTPUT : Z := 16.
Definition TJXOPT_PROGRESSIVE : Z := 32.
Definition TJXOPT_COPYNONE : Z := 64.

(** The flags of the backward compatibility section. *)
Definition TJ_BGR : Z := 1.
Definition TJ_ALPHAFIRST : Z := 64.
Definition TJ_YUV : Z := 512.
Definition TJFLAG_FORCEMMX : Z := 8.
Definition TJFLAG_FORCESSE : Z := 16.
Definition TJFLAG_FORCESSE2 : Z := 32.
Definition TJFLAG_FORCESSE3 : Z := 128.

End TurboJpeg.

(* ===================================================================== *)
(** * Vocabulary of the properties *)
(* ===================================================================== *)

Module Props.
Import LibC JSimdCpu TurboJpeg.

(** [feature] occurs in [buffer] at offset [k]. *)
Definition occurs_at (feature buffer : string) (k : nat) : bool :=
  String.prefix feature (advance k buffer).

(** The occurrence at [k] is not followed by a non-space character. *)
Definition boundary_after (feature buffer : string) (k : nat) : bool :=
  let c := deref buffer (k + strlen feature) in
  Ascii.eqb c NUL || isspace c.

(** The occurrence at [k] is not preceded by a non-space character. *)
Definition boundary_before (buffer : string) (k : nat) : bool :=
  (k =? 0)%nat || isspace (deref buffer (k - 1)).

(** What the search loop accepts. *)
Definition accepted_at (feature buffer : string) (k : nat) : bool :=
  occurs_at feature buffer k && boundary_after feature buffer k.

(** A whole word: an occurrence with a boundary on both sides. *)
Definition whole_word_at (feature buffer : string) (k : nat) : bool :=
  occurs_at feature buffer k && boundary_before buffer k
  && boundary_after feature buffer k.

Definition whole_word_in (feature buffer : string) : bool :=
  existsb (whole_word_at feature buffer) (seq 0 (S (String.length buffer))).

(** The matcher as the documentation words it: the line begins with the
    key phrase and what follows the phrase has the feature as a whole
    word. *)
Definition whole_word_feature (line feature : string) : bool :=
  String.prefix "ASEs implemented" line
  && whole_word_in feature (advance 16 line).

(** The buffer size of the call number [k] of the retry loop. *)
Definition attempt_bufsize (k : nat) : Z := 1024 * 2 ^ Z.of_nat k.

(** The call number [k] fails: it returns FALSE, leaving [mask]. *)
Definition attempt_fails (J : Z) (env : nat -> World) (k : nat) (mask : Z) : Prop :=
  parse_proc_cpuinfo J (attempt_bufsize k) (env k) 0 = Some (false, mask).

(** The environment in which every call sees the same world. *)
Definition always (w : World) : nat -> World := fun _ => w.

(** [n] copies of a character. *)
Fixpoint fill (c : ascii) (n : nat) : string :=
  match n with
  | O => EmptyString
  | S n' => String c (fill c n')
  end.

(** No byte of the string is NUL. *)
Fixpoint nul_free (s : string) : bool :=
  match s with
  | EmptyString => true
  | String c r => negb (Ascii.eqb c NUL) && nul_free r
  end.

(** The scaling factor as a rational number. *)
Definition factor_value (sf : tjscalingfactor) : Q :=
  Qmake (num sf) (Z.to_pos (denom sf)).

(** Number of the offsets of a format that are defined. *)
Definition defined_offsets (i : Z) : Z :=
  Z.of_nat (List.length
    (filter (fun t => match aref t i with
                      | Some o => negb (o =? -1)
                      | None => false
                      end)
            [tjRedOffset; tjGreenOffset; tjBlueOffset; tjAlphaOffset])).

(** Position of a component among the bytes of a pixel, [-1] if the
    pixel has none. *)
Definition component_eqb (a b : component) : bool :=
  match a, b with
  | Red, Red | Green, Green | Blue, Blue | Alpha, Alpha
  | Ignored, Ignored | Luminance, Luminance
  | Cyan, Cyan | Magenta, Magenta | Yellow, Yellow | Key, Key => true
  | _, _ => false
  end.

Fixpoint position (c : component) (l : list component) : Z :=
  match l with
  | [] => -1
  | d :: l' =>
    if component_eqb c d then 0
    else let p := position c l' in if p =? -1 then -1 else p + 1
  end.

Definition TJPF_of_index (i : Z) : TJPF :=
  match i with
  | 0 => TJPF_RGB | 1 => TJPF_BGR | 2 => TJPF_RGBX | 3 => TJPF_BGRX
  | 4 => TJPF_XBGR | 5 => TJPF_XRGB | 6 => TJPF_GRAY | 7 => TJPF_RGBA
  | 8 => TJPF_BGRA | 9 => TJPF_ABGR | 10 => TJPF_ARGB | 11 => TJPF_CMYK
  | _ => TJPF_UNKNOWN
  end.

Definition TJSAMP_of_index (i : Z) : option TJSAMP :=
  match i with
  | 0 => Some TJSAMP_444 | 1 => Some TJSAMP_422 | 2 => Some TJSAMP_420
  | 3 => Some TJSAMP_GRAY | 4 => Some TJSAMP_440 | 5 => Some TJSAMP_411
  | _ => None
  end.

(** Every character is white space. *)
Fixpoint all_spaces (s : string) : bool :=
  match s with
  | EmptyString => true
  | String c r => isspace c && all_spaces r
  end.

(** A string of characters that are neither white space nor NUL. *)
Fixpoint clean (s : string) : bool :=
  match s with
  | EmptyString => true
  | String c r => negb (isspace c) && negb (Ascii.eqb c NUL) && clean r
  end.

(** Tokens written out, each followed by its separator. *)
Fixpoint tokens_text (toks : list (string * ascii)) : string :=
  match toks with
  | [] => EmptyString
  | (w, sep) :: rest => w ++ String sep (tokens_text rest)
  end.

(** [w] ends with [f]. *)
Definition ends_with (w f : string) : Prop := exists pre, w = pre ++ f.

(** Lines written out, each followed by a newline. *)
Fixpoint unlines (ls : list string) : string :=
  match ls with
  | [] => EmptyString
  | l :: rest => l ++ String LF (unlines rest)
  end.

(** A line without NUL or newline that fits, with its newline, into a
    buffer of [bufsize] bytes. *)
Definition line_fits (bufsize : Z) (l : string) : bool :=
  nul_free l && negb (strchr l LF)
  && (Z.of_nat (String.length l) + 1 <? bufsize).

(** Some line, as [fgets] delivers it, announces the feature. *)
Definition announces (ls : list string) : bool :=
  existsb (fun l => check_feature (l ++ String LF "") "loongson-mmi") ls.

(** All constants meant for a [flags] argument, the deprecated ones
    included, and all transform options. *)
Definition all_flags : list Z :=
  [ TJ_BGR; TJFLAG_BOTTOMUP; TJFLAG_FORCEMMX; TJFLAG_FORCESSE;
    TJFLAG_FORCESSE2; TJ_ALPHAFIRST; TJFLAG_FORCESSE3; TJFLAG_FASTUPSAMPLE;
    TJ_YUV; TJFLAG_NOREALLOC; TJFLAG_FASTDCT; TJFLAG_ACCURATEDCT;
    TJFLAG_STOPONWARNING; TJFLAG_PROGRESSIVE; TJFLAG_LIMITSCANS ].

Definition all_options : list Z :=
  [ TJXOPT_PERFECT; TJXOPT_TRIM; TJXOPT_CROP; TJXOPT_GRAY;
    TJXOPT_NOOUTPUT; TJXOPT_PROGRESSIVE; TJXOPT_COPYNONE ].

(** The bitwise OR of a selection of flags. *)
Definition bitwise_or (selection : list Z) : Z := fold_right Z.lor 0 selection.

End Props.

Import LibC JSimdCpu TurboJpeg Props.

(** All indices of a table of the given size. *)
Ltac each_index i H :=
  let rec go n :=
    lazymatch n with
    | O => exfalso; lia
    | S ?n' =>
      let k := eval vm_compute in (Z.of_nat n') in
      destruct (Z.eq_dec i k) as [-> | ?]; [try (exfalso; lia) | go n']
    end in
  go 12%nat.

(* ===================================================================== *)
(** * The word matcher *)
(* ===================================================================== *)

Section WordSearch.

Lemma accepted_at_cons f c b k :
  accepted_at f (String c b) (S k) = accepted_at f b k.
Proof. reflexivity. Qed.

Lemma prefix_empty_r f : f <> EmptyString -> String.prefix f EmptyString = false.
Proof. destruct f; [congruence | reflexivity]. Qed.

Lemma strstr_zero b f : String.prefix f b = true -> strstr b f = Some O.
Proof. intros H. destruct b; simpl in *; rewrite H; reflexivity. Qed.

Lemma strstr_step c b f :
  String.prefix f (String c b) = false ->
  strstr (String c b) f = option_map S (strstr b f).
Proof.
  intros H. change (strstr (String c b) f)
    with (if String.prefix f (String c b) then Some O
          else option_map S (strstr b f)).
  rewrite H. reflexivity.
Qed.

Lemma strstr_nil f :
  strstr EmptyString f = if String.prefix f EmptyString then Some O else None.
Proof. reflexivity. Qed.

(** [strstr] returns an occurrence, and the first one. *)
Lemma strstr_first b f p :
  strstr b f = Some p ->
  occurs_at f b p = true /\ forall k, (k < p)%nat -> occurs_at f b k = false.
Proof.
  revert p. induction b as [|c b IH]; intros p H.
  - rewrite strstr_nil in H.
    destruct (String.prefix f "") eqn:E; [|discriminate].
    inversion H; subst. split; [exact E | intros k Hk; lia].
  - destruct (String.prefix f (String c b)) eqn:E.
    + rewrite (strstr_zero _ _ E) in H. inversion H; subst.
      split; [exact E | intros k Hk; lia].
    + rewrite (strstr_step _ _ _ E) in H.
      destruct (strstr b f) as [q|] eqn:Eq; [|discriminate].
      inversion H; subst. destruct (IH q eq_refl) as [Ho Hf].
      split; [exact Ho|].
      intros [|k] Hk; [exact E | apply Hf; lia].
Qed.

(** A null result means there is no occurrence at all. *)
Lemma strstr_none b f :
  strstr b f = None -> forall k, occurs_at f b k = false.
Proof.
  induction b as [|c b IH]; intros H k.
  - rewrite strstr_nil in H.
    destruct (String.prefix f "") eqn:E; [discriminate|].
    destruct k; exact E.
  - destruct (String.prefix f (String c b)) eqn:E.
    + rewrite (strstr_zero _ _ E) in H. discriminate.
    + rewrite (strstr_step _ _ _ E) in H.
      destruct (strstr b f) eqn:Eq; [discriminate|].
      destruct k as [|k]; [exact E | exact (IH eq_refl k)].
Qed.

(** With a feature that is not empty the loop never steps past the
    terminator. *)
Lemma search_body_empty f :
  f <> EmptyString -> search_body EmptyString f = Return false.
Proof.
  intros Hf. unfold search_body. rewrite strstr_nil.
  rewrite (prefix_empty_r f Hf). reflexivity.
Qed.

(** What the loop computes: some occurrence of the feature is followed
    by the terminator or a space.  The character before the occurrence
    plays no part. *)
Lemma search_loop_accepts f b :
  f <> EmptyString ->
  search_loop b f = true <-> exists k, accepted_at f b k = true.
Proof.
  intros Hf. induction b as [|c b IH].
  - simpl. rewrite (search_body_empty f Hf). split; [discriminate|].
    intros [k Hk]. unfold accepted_at, occurs_at in Hk.
    replace (advance k "") with EmptyString in Hk by (destruct k; reflexivity).
    rewrite (prefix_empty_r f Hf) in Hk. discriminate.
  - assert (Hshift : accepted_at f (String c b) 0 = false ->
              ((exists k, accepted_at f (String c b) k = true) <->
               (exists k, accepted_at f b k = true))).
    { intros H0. split; intros [k Hk].
      - destruct k as [|k]; [congruence|]. exists k. exact Hk.
      - exists (S k). exact Hk. }
    change (search_loop (String c b) f)
      with (match search_body (String c b) f with
            | Return r => r
            | Continue => search_loop b f
            end).
    unfold search_body.
    destruct (strstr (String c b) f) as [p|] eqn:Es.
    + destruct (strstr_first _ _ _ Es) as [Ho Hfirst].
      destruct ((0 <? p)%nat && negb (isspace (deref (String c b) (p - 1)))) eqn:Eb.
      * rewrite IH. symmetry. apply Hshift.
        apply andb_true_iff in Eb. destruct Eb as [Hp _].
        apply Nat.ltb_lt in Hp. unfold accepted_at.
        rewrite (Hfirst 0%nat Hp). reflexivity.
      * cbv zeta.
        destruct (negb (Ascii.eqb (deref (String c b) (p + strlen f)) NUL)
                  && negb (isspace (deref (String c b) (p + strlen f)))) eqn:Ea.
        -- rewrite IH. symmetry. apply Hshift.
           destruct p as [|p].
           ++ unfold accepted_at, boundary_after. cbv zeta.
              rewrite <- negb_orb in Ea. apply negb_true_iff in Ea.
              rewrite Ea. apply andb_false_r.
           ++ unfold accepted_at. rewrite (Hfirst 0%nat); [reflexivity | lia].
        -- split; [intros _ | reflexivity].
           exists p. unfold accepted_at, boundary_after. cbv zeta.
           rewrite Ho. rewrite <- negb_orb in Ea.
           apply negb_false_iff in Ea. rewrite Ea. reflexivity.
    + split; [discriminate|]. intros [k Hk]. unfold accepted_at in Hk.
      rewrite (strstr_none _ _ Es k) in Hk. discriminate.
Qed.

End WordSearch.

Section KeyPhrase.

Lemma N_of_ascii_nul c : N_of_ascii c = 0%N -> c = NUL.
Proof.
  intros H. rewrite <- (ascii_N_embedding c), H. reflexivity.
Qed.

(** Comparing the first [strlen s2] characters is testing for a prefix. *)
Lemma strncmp_prefix s2 : forall s1,
  nul_free s2 = true ->
  strncmp s1 s2 (String.length s2) = 0 <-> String.prefix s2 s1 = true.
Proof.
  induction s2 as [|c2 r2 IH]; intros s1 Hn.
  - destruct s1; simpl; tauto.
  - simpl in Hn. apply andb_true_iff in Hn. destruct Hn as [Hc Hr].
    apply negb_true_iff, Ascii.eqb_neq in Hc.
    destruct s1 as [|c1 r1]; simpl.
    + split; [|discriminate]. intros H.
      assert (N_of_ascii c2 = 0%N) by lia.
      elim Hc. now apply N_of_ascii_nul.
    + destruct (Ascii.eqb_spec c1 c2) as [->|Hne].
      * destruct (ascii_dec c2 c2); [|congruence]. apply IH. exact Hr.
      * destruct (ascii_dec c2 c1); [congruence|].
        split; [|discriminate]. intros H.
        elim Hne. rewrite <- (ascii_N_embedding c1), <- (ascii_N_embedding c2).
        f_equal. lia.
Qed.

Lemma key_phrase_prefix buffer :
  strncmp buffer "ASEs implemented" 16 = 0 <->
  String.prefix "ASEs implemented" buffer = true.
Proof. apply (strncmp_prefix "ASEs implemented"). reflexivity. Qed.

(** [check_feature] as a whole: the line starts with the key phrase and,
    past the phrase and the white space after it, some occurrence of the
    feature is followed by the terminator or a space. *)
Lemma check_feature_accepts line f :
  nul_free f = true ->
  check_feature line f = true <->
  f <> EmptyString /\
  String.prefix "ASEs implemented" line = true /\
  exists k, accepted_at f (skip_spaces (advance 16 line)) k = true.
Proof.
  intros Hn. unfold check_feature.
  destruct f as [|c f].
  - simpl. split; [discriminate | intros [H _]; congruence].
  - simpl in Hn. apply andb_true_iff in Hn. destruct Hn as [Hc _].
    apply negb_true_iff in Hc.
    change (deref (String c f) 0) with c. rewrite Hc.
    destruct (strncmp line "ASEs implemented" 16 =? 0) eqn:E; simpl negb; cbv iota.
    + apply Z.eqb_eq, key_phrase_prefix in E.
      cbv zeta. rewrite search_loop_accepts by discriminate.
      split; [intros H; repeat split; [discriminate | exact E | exact H]|].
      intros (_ & _ & H). exact H.
    + split; [discriminate|]. intros (_ & H & _).
      apply key_phrase_prefix in H. apply Z.eqb_neq in E. contradiction.
Qed.

(** Skipping the white space after the key phrase loses no occurrence of
    a feature that does not itself start with a space. *)
Lemma accepted_after_spaces f : forall b k,
  f <> EmptyString ->
  isspace (deref f 0) = false ->
  accepted_at f b k = true ->
  exists k', accepted_at f (skip_spaces b) k' = true.
Proof.
  induction b as [|c b IH]; intros k Hf Hsp Hk; [exists k; exact Hk|].
  simpl. destruct (isspace c) eqn:Ec; [|exists k; exact Hk].
  destruct k as [|k]; [|exact (IH k Hf Hsp Hk)].
  exfalso. unfold accepted_at, occurs_at in Hk.
  apply andb_true_iff in Hk. destruct Hk as [Hk _].
  destruct f as [|a f]; [congruence|]. simpl in Hk.
  destruct (ascii_dec a c) as [->|]; [|discriminate].
  change (deref (String c f) 0) with c in Hsp. congruence.
Qed.

(** The matcher never misses a whole word: whenever the feature stands as
    a whole word after the key phrase, [check_feature] returns TRUE.  The
    converse is what fails. *)
Lemma whole_word_is_accepted line f :
  f <> EmptyString ->
  nul_free f = true ->
  isspace (deref f 0) = false ->
  whole_word_feature line f = true ->
  check_feature line f = true.
Proof.
  intros Hf Hn Hsp H. unfold whole_word_feature in H.
  apply andb_true_iff in H. destruct H as [Hpre Hin].
  apply (check_feature_accepts line f Hn). split; [exact Hf | split; [exact Hpre|]].
  unfold whole_word_in in Hin. apply existsb_exists in Hin.
  destruct Hin as (k & _ & Hk). unfold whole_word_at in Hk.
  apply andb_true_iff in Hk. destruct Hk as [Hk Hafter].
  apply andb_true_iff in Hk. destruct Hk as [Hocc _].
  apply (accepted_after_spaces f _ k Hf Hsp).
  unfold accepted_at. rewrite Hocc, Hafter. reflexivity.
Qed.

Lemma whole_word_mmi_is_accepted line :
  whole_word_feature line "loongson-mmi" = true ->
  check_feature line "loongson-mmi" = true.
Proof. apply whole_word_is_accepted; [discriminate | reflexivity | reflexivity]. Qed.

End KeyPhrase.

Example check_feature_two_tokens :
  check_feature "ASEs implemented: loongson-mmix loongson-mmi" "loongson-mmi" = true
  /\ whole_word_feature "ASEs implemented: loongson-mmix loongson-mmi" "loongson-mmi" = true.
Proof. split; reflexivity. Qed.

Example check_feature_mmix_only :
  check_feature "ASEs implemented: loongson-mmix" "loongson-mmi" = false
  /\ whole_word_feature "ASEs implemented: loongson-mmix" "loongson-mmi" = false.
Proof. split; reflexivity. Qed.

Example check_feature_cpuinfo_line :
  check_feature ("ASEs implemented" ++ String (ascii_of_N 9) ": vz loongson-mmi loongson-cam" ++ String LF "")
                "loongson-mmi" = true.
Proof. reflexivity. Qed.

Example check_feature_other_key :
  check_feature "isa: loongson-mmi" "loongson-mmi" = false.
Proof. reflexivity. Qed.

(** C1.  The matcher is meant to report "loongson-mmi" only as a whole
    word after the key phrase.  On the line
    "ASEs implemented: xloongson-mmi" the only occurrence is glued to a
    preceding [x], so the whole-word reading rejects the line, yet
    [check_feature] returns TRUE: after [buffer++] has walked up to the
    occurrence, [p > buffer] is false and the character before the match
    is no longer looked at. *)
Theorem check_feature_glued_token :
  check_feature "ASEs implemented: xloongson-mmi" "loongson-mmi" = true /\
  whole_word_feature "ASEs implemented: xloongson-mmi" "loongson-mmi" = false.
Proof. split; reflexivity. Qed.

(** C9.  With an empty feature string [check_feature] returns FALSE
    whatever the buffer holds. *)
Theorem check_feature_empty_feature :
  forall buffer : string, check_feature buffer EmptyString = false.
Proof. intros buffer. reflexivity. Qed.

(* ===================================================================== *)
(** * Reading the stream *)
(* ===================================================================== *)

Section Stream.

(** Every character of the input ends up stored or left over. *)
Lemma fgets_chars_consumes n : forall s line rest hit,
  fgets_chars n s = (line, rest, hit) ->
  String.length s = (String.length line + String.length rest)%nat.
Proof.
  induction n as [|n IH]; intros s line rest hit H; simpl in H.
  - inversion H; subst. reflexivity.
  - destruct s as [|c s].
    + inversion H; subst. reflexivity.
    + destruct (Ascii.eqb c LF).
      * inversion H; subst. reflexivity.
      * destruct (fgets_chars n s) as [[l r] e] eqn:E.
        inversion H; subst. simpl. f_equal. exact (IH _ _ _ _ E).
Qed.

(** Nothing is stored only when there is no room or no input. *)
Lemma fgets_chars_nothing n s rest hit :
  fgets_chars n s = (EmptyString, rest, hit) ->
  (n = O /\ rest = s /\ hit = false) \/ (s = EmptyString /\ hit = true).
Proof.
  destruct n as [|n]; simpl; intros H.
  - inversion H; subst. left. auto.
  - destruct s as [|c s].
    + inversion H; subst. right. auto.
    + destruct (Ascii.eqb c LF); [discriminate|].
      destruct (fgets_chars n s) as [[l r] e]. discriminate.
Qed.

(** A successful [fgets] either had a one-byte buffer and left the
    stream alone, or it made progress. *)
Lemma fgets_some bufsize fd raw fd' :
  fgets bufsize fd = (Some raw, fd') ->
  (raw = EmptyString /\ bufsize = 1 /\ eof_flag fd' = eof_flag fd) \/
  (2 <= bufsize /\ (String.length (pending fd') < String.length (pending fd))%nat).
Proof.
  unfold fgets. destruct (bufsize <=? 0) eqn:Eb; [discriminate|].
  apply Z.leb_gt in Eb.
  destruct (fgets_chars (Z.to_nat (bufsize - 1)) (pending fd)) as [[l r] e] eqn:E.
  destruct l as [|c l].
  - destruct e; [discriminate|]. intros H. inversion H; subst. left.
    destruct (fgets_chars_nothing _ _ _ _ E) as [(Hn & _ & _) | (_ & He)];
      [|discriminate].
    simpl. rewrite orb_false_r. repeat split. lia.
  - intros H. inversion H; subst. right. split.
    + destruct (Z.to_nat (bufsize - 1)) eqn:En; [|lia].
      simpl in E. discriminate.
    + apply fgets_chars_consumes in E. simpl in *. lia.
Qed.

End Stream.

(* ===================================================================== *)
(** * One call of [parse_proc_cpuinfo] *)
(* ===================================================================== *)

Section Parse.

Variable J : Z.

Lemma read_lines_step fuel bufsize fd m :
  read_lines J (S fuel) bufsize fd m =
  match fgets bufsize fd with
  | (None, _) => Some (true, m)
  | (Some raw, fd') =>
    if negb (strchr (cstr raw) LF) && negb (feof fd')
    then Some (false, m)
    else read_lines J fuel bufsize fd'
           (if check_feature (cstr raw) "loongson-mmi" then Z.lor m J else m)
  end.
Proof. reflexivity. Qed.

(** The line loop ends: fuel beyond the length of the unread input is
    never used up. *)
Lemma read_lines_total : forall fuel bufsize fd m,
  eof_flag fd = false \/ 2 <= bufsize ->
  (String.length (pending fd) < fuel)%nat ->
  exists r, read_lines J fuel bufsize fd m = Some r.
Proof.
  induction fuel as [|fuel IH]; intros bufsize fd m Hinv Hlen; [lia|].
  rewrite read_lines_step.
  destruct (fgets bufsize fd) as [[raw|] fd'] eqn:E; [|eauto].
  destruct (fgets_some _ _ _ _ E) as [(-> & -> & Hf) | (Hb & Hl)].
  - destruct Hinv as [Hinv | Hinv]; [|lia].
    unfold feof. rewrite Hf, Hinv. simpl. eauto.
  - destruct (negb (strchr (cstr raw) LF) && negb (feof fd')); [eauto|].
    apply IH; [right; exact Hb | lia].
Qed.

(** The loop only ever adds the one bit. *)
Lemma read_lines_mask : forall fuel bufsize fd m ok m',
  read_lines J fuel bufsize fd m = Some (ok, m') ->
  m' = m \/ m' = Z.lor m J.
Proof.
  induction fuel as [|fuel IH]; intros bufsize fd m ok m' H; [discriminate|].
  rewrite read_lines_step in H.
  destruct (fgets bufsize fd) as [[raw|] fd'].
  - destruct (negb (strchr (cstr raw) LF) && negb (feof fd')).
    + inversion H; auto.
    + apply IH in H.
      destruct (check_feature (cstr raw) "loongson-mmi"); [|exact H].
      right. rewrite <- Z.lor_assoc, Z.lor_diag in H. tauto.
  - inversion H; auto.
Qed.

(** [parse_proc_cpuinfo] always returns. *)
Lemma parse_total bufsize w m :
  exists ok m', parse_proc_cpuinfo J bufsize w m = Some (ok, m').
Proof.
  unfold parse_proc_cpuinfo.
  destruct (malloc_succeeds w); cbn [negb]; [|eauto].
  unfold fopen. destruct (proc_cpuinfo w) as [bytes|]; [|eauto].
  destruct (read_lines_total (S (String.length bytes)) bufsize
              {| pending := bytes; eof_flag := false |} 0) as [[ok m'] Hr];
    cbn [pending eof_flag]; eauto.
Qed.

(** The mask on entry is overwritten before anything else happens. *)
Lemma parse_resets bufsize w m :
  parse_proc_cpuinfo J bufsize w m = parse_proc_cpuinfo J bufsize w 0.
Proof. reflexivity. Qed.

(** The mask a call leaves is empty or the one bit. *)
Lemma parse_mask bufsize w m ok m' :
  parse_proc_cpuinfo J bufsize w m = Some (ok, m') -> m' = 0 \/ m' = J.
Proof.
  unfold parse_proc_cpuinfo.
  destruct (malloc_succeeds w); cbn [negb]; [|intros H; inversion H; auto].
  destruct (fopen w) as [fd|]; [|intros H; inversion H; auto].
  intros H. apply read_lines_mask in H. rewrite Z.lor_0_l in H. exact H.
Qed.

(** Without the file a call that got its buffer succeeds with an empty
    mask. *)
Lemma parse_unopenable bufsize w m :
  proc_cpuinfo w = None ->
  parse_proc_cpuinfo J bufsize w m =
  Some (malloc_succeeds w, 0).
Proof.
  intros H. unfold parse_proc_cpuinfo, fopen. rewrite H.
  destruct (malloc_succeeds w); reflexivity.
Qed.

End Parse.

(* ===================================================================== *)
(** * The retry loop *)
(* ===================================================================== *)

Section Retry.

Variable J : Z.
Variable env : nat -> World.

Lemma attempt_bufsize_succ k : attempt_bufsize k * 2 = attempt_bufsize (S k).
Proof.
  unfold attempt_bufsize. rewrite Nat2Z.inj_succ, Z.pow_succ_r by lia. ring.
Qed.

Lemma attempt_bufsize_bounds k :
  (k <= 10)%nat -> 1024 <= attempt_bufsize k <= 1048576.
Proof.
  intros Hk. unfold attempt_bufsize.
  assert (2 ^ 0 <= 2 ^ Z.of_nat k <= 2 ^ 10)
    by (split; apply Z.pow_le_mono_r; lia).
  change (2 ^ 0) with 1 in *. change (2 ^ 10) with 1024 in *. lia.
Qed.

Lemma attempt_bufsize_over k :
  (10 < k)%nat -> SOMEWHAT_SANE_PROC_CPUINFO_SIZE_LIMIT < attempt_bufsize k.
Proof.
  intros Hk. unfold attempt_bufsize, SOMEWHAT_SANE_PROC_CPUINFO_SIZE_LIMIT.
  assert (2 ^ 11 <= 2 ^ Z.of_nat k) by (apply Z.pow_le_mono_r; lia).
  change (2 ^ 11) with 2048 in *. lia.
Qed.

Lemma retry_loop_step fuel call bufsize m :
  retry_loop J (S fuel) env call bufsize m =
  match parse_proc_cpuinfo J bufsize (env call) m with
  | None => None
  | Some (true, m') => Some m'
  | Some (false, m') =>
    if bufsize * 2 >? SOMEWHAT_SANE_PROC_CPUINFO_SIZE_LIMIT then Some m'
    else retry_loop J fuel env (S call) (bufsize * 2) m'
  end.
Proof. reflexivity. Qed.

(** From call [k] on, the loop runs calls [k], [k+1], ... with the buffer
    doubled each time, stops at the first that succeeds or at the one
    with the 1 MiB buffer, and returns the mask that last call left. *)
Lemma retry_loop_outcome : forall fuel k m0,
  (k <= 10)%nat -> (10 - k < fuel)%nat ->
  exists k' ok m,
    (k <= k' <= 10)%nat /\
    retry_loop J fuel env k (attempt_bufsize k) m0 = Some m /\
    parse_proc_cpuinfo J (attempt_bufsize k') (env k') 0 = Some (ok, m) /\
    (forall j, (k <= j < k')%nat -> exists mj, attempt_fails J env j mj) /\
    (ok = true \/ k' = 10%nat).
Proof.
  induction fuel as [|fuel IH]; intros k m0 Hk Hfuel; [lia|].
  rewrite retry_loop_step, parse_resets.
  destruct (parse_total J (attempt_bufsize k) (env k) 0) as (ok & m & Hp).
  rewrite Hp. destruct ok.
  - exists k, true, m. repeat split; auto; try lia; intros j Hj; lia.
  - rewrite attempt_bufsize_succ.
    destruct (attempt_bufsize (S k) >? SOMEWHAT_SANE_PROC_CPUINFO_SIZE_LIMIT) eqn:Ec.
    + assert (k = 10%nat).
      { destruct (Nat.eq_dec k 10) as [|Hne]; [assumption|].
        assert (Hb := attempt_bufsize_bounds (S k) ltac:(lia)).
        apply Z.gtb_lt in Ec.
        unfold SOMEWHAT_SANE_PROC_CPUINFO_SIZE_LIMIT in Ec. lia. }
      subst k. exists 10%nat, false, m.
      repeat split; auto; intros j Hj; lia.
    + assert (k < 10)%nat.
      { destruct (Nat.eq_dec k 10) as [->|Hne]; [|lia].
        assert (Ho := attempt_bufsize_over 11 ltac:(lia)).
        rewrite Z.gtb_ltb in Ec. apply Z.ltb_ge in Ec. lia. }
      destruct (IH (S k) m ltac:(lia) ltac:(lia)) as (k' & ok' & m' & Hr & Hl & Hp' & Hf & Hs).
      exists k', ok', m'. repeat split; auto; try lia.
      intros j Hj. destruct (Nat.eq_dec j k) as [->|Hne];
        [exists m; exact Hp | apply Hf; lia].
Qed.

(** The function returns on every platform. *)
Lemma linux_outcome :
  exists k ok m,
    (k <= 10)%nat /\
    jpeg_simd_cpu_support J Linux env = Some m /\
    parse_proc_cpuinfo J (attempt_bufsize k) (env k) 0 = Some (ok, m) /\
    (forall j, (j < k)%nat -> exists mj, attempt_fails J env j mj) /\
    (ok = true \/ k = 10%nat).
Proof.
  destruct (retry_loop_outcome 32 0 0 ltac:(lia) ltac:(lia))
    as (k & ok & m & Hk & Hl & Hp & Hf & Hs).
  exists k, ok, m. repeat split; auto; try lia.
  intros j Hj. apply Hf. lia.
Qed.

(** The call that decides is determined by the outcomes of the calls. *)
Lemma linux_result k ok m :
  (k <= 10)%nat ->
  (forall j, (j < k)%nat -> exists mj, attempt_fails J env j mj) ->
  parse_proc_cpuinfo J (attempt_bufsize k) (env k) 0 = Some (ok, m) ->
  ok = true \/ k = 10%nat ->
  jpeg_simd_cpu_support J Linux env = Some m.
Proof.
  intros Hk Hfail Hp Hstop.
  destruct linux_outcome as (k0 & ok0 & m0 & Hk0 & Hr & Hp0 & Hf0 & Hs0).
  assert (k0 = k) as ->.
  { destruct (Nat.lt_trichotomy k0 k) as [Hlt | [Heq | Hgt]]; [|exact Heq|].
    - destruct (Hfail _ Hlt) as [mj Hj]. unfold attempt_fails in Hj.
      rewrite Hj in Hp0. inversion Hp0; subst.
      destruct Hs0; [discriminate | lia].
    - destruct (Hf0 _ Hgt) as [mj Hj]. unfold attempt_fails in Hj.
      rewrite Hj in Hp. inversion Hp; subst.
      destruct Hstop; [discriminate | lia]. }
  rewrite Hp0 in Hp. inversion Hp; subst. exact Hr.
Qed.

End Retry.

(* ===================================================================== *)
(** * Lines that fit and lines that do not *)
(* ===================================================================== *)

Section Lines.

(** A line with its newline that fits is read whole. *)
Lemma fgets_chars_line : forall line n rest,
  strchr line LF = false ->
  (String.length line < n)%nat ->
  fgets_chars n (line ++ String LF rest) = (line ++ String LF "", rest, false).
Proof.
  induction line as [|c line IH]; intros n rest Hno Hlen.
  - destruct n; [simpl in Hlen; lia | reflexivity].
  - simpl in Hno. apply orb_false_iff in Hno. destruct Hno as [Hc Hno].
    destruct n as [|n]; [simpl in Hlen; lia|].
    simpl. rewrite Hc. rewrite IH; [reflexivity | exact Hno | simpl in Hlen; lia].
Qed.

(** Of a run without a newline that is at least as long as the room in
    the buffer, exactly the room is read, and the end of the stream is
    not noticed. *)
Lemma fgets_chars_fill c : forall n m,
  Ascii.eqb c LF = false ->
  (n <= m)%nat ->
  fgets_chars n (fill c m) = (fill c n, fill c (m - n), false).
Proof.
  induction n as [|n IH]; intros m Hc Hle.
  - simpl. rewrite Nat.sub_0_r. reflexivity.
  - destruct m as [|m]; [lia|].
    simpl. rewrite Hc. rewrite IH by (auto; lia). reflexivity.
Qed.

Lemma strchr_fill c d n : Ascii.eqb c d = false -> strchr (fill c n) d = false.
Proof. intros H. induction n; simpl; [reflexivity | now rewrite H]. Qed.

Lemma cstr_fill c n : Ascii.eqb c NUL = false -> cstr (fill c n) = fill c n.
Proof. intros H. induction n; simpl; [reflexivity | now rewrite H, IHn]. Qed.

Lemma fgets_line bufsize fd line rest :
  pending fd = line ++ String LF rest ->
  strchr line LF = false ->
  Z.of_nat (String.length line) + 1 < bufsize ->
  fgets bufsize fd =
  (Some (line ++ String LF ""), {| pending := rest; eof_flag := eof_flag fd |}).
Proof.
  intros Hp Hno Hroom. unfold fgets.
  destruct (bufsize <=? 0) eqn:Eb; [apply Z.leb_le in Eb; lia|].
  rewrite Hp, fgets_chars_line by (auto; lia).
  rewrite orb_false_r. destruct line; reflexivity.
Qed.

Lemma fgets_truncated bufsize fd c m :
  pending fd = fill c m ->
  Ascii.eqb c LF = false ->
  1 <= bufsize ->
  bufsize - 1 <= Z.of_nat m ->
  fgets bufsize fd =
  (Some (fill c (Z.to_nat (bufsize - 1))),
   {| pending := fill c (m - Z.to_nat (bufsize - 1)); eof_flag := eof_flag fd |}).
Proof.
  intros Hp Hc Hb Hm. unfold fgets.
  destruct (bufsize <=? 0) eqn:Eb; [apply Z.leb_le in Eb; lia|].
  rewrite Hp, fgets_chars_fill by (auto; lia).
  rewrite orb_false_r. destruct (fill c (Z.to_nat (bufsize - 1))); reflexivity.
Qed.

(** A stream that announces the feature on its first line and goes on
    with a run too long for the buffer: the call fails, and the bit set
    for the first line stays in the mask. *)
Lemma parse_feature_then_long_run J bufsize m0 m :
  32 < bufsize ->
  bufsize - 1 <= Z.of_nat m ->
  parse_proc_cpuinfo J bufsize
    {| malloc_succeeds := true;
       proc_cpuinfo :=
         Some ("ASEs implemented: loongson-mmi" ++ String LF (fill "x" m)) |}
    m0
  = Some (false, J).
Proof.
  intros Hb Hm. unfold parse_proc_cpuinfo, fopen.
  cbn [malloc_succeeds proc_cpuinfo negb pending].
  change (String.length ("ASEs implemented: loongson-mmi" ++ String LF (fill "x" m)))
    with (S (30 + String.length (fill "x" m))).
  rewrite read_lines_step.
  rewrite (fgets_line bufsize _ "ASEs implemented: loongson-mmi" (fill "x" m))
    by (try reflexivity; cbn; lia).
  cbn [eof_flag feof].
  change (strchr (cstr ("ASEs implemented: loongson-mmi" ++ String LF "")) LF)
    with true.
  change (check_feature (cstr ("ASEs implemented: loongson-mmi" ++ String LF ""))
                        "loongson-mmi") with true.
  cbn [negb andb]. rewrite Z.lor_0_l.
  change (30 + String.length (fill "x" m))%nat
    with (S (29 + String.length (fill "x" m))).
  rewrite read_lines_step.
  rewrite (fgets_truncated bufsize _ "x" m) by (try reflexivity; lia).
  cbn [eof_flag feof].
  rewrite cstr_fill, strchr_fill by reflexivity. reflexivity.
Qed.

End Lines.

(* ===================================================================== *)
(** * The capability probe: the claims *)
(* ===================================================================== *)

(** C2 as stated fails.  The stream announces the feature on its first
    line and continues with 2^20 characters without a newline: every call,
    up to the one with the 1 MiB buffer, fails on the truncated line, the
    loop gives up, and the function returns the bit (here 0x100) that the
    last call had set before it failed, not zero. *)
Lemma giving_up_keeps_detected_bit :
  let w := {| malloc_succeeds := true;
              proc_cpuinfo :=
                Some ("ASEs implemented: loongson-mmi"
                      ++ String LF (fill "x" (Z.to_nat 1048576))) |} in
  (forall k, (k <= 10)%nat -> attempt_fails 256 (always w) k 256) /\
  jpeg_simd_cpu_support 256 Linux (always w) = Some 256 /\
  jpeg_simd_cpu_support 256 Linux (always w) <> Some 0.
Proof.
  intros w.
  assert (Hall : forall k, (k <= 10)%nat -> attempt_fails 256 (always w) k 256).
  { intros k Hk. unfold attempt_fails, always, w.
    assert (Hb := attempt_bufsize_bounds k Hk).
    apply parse_feature_then_long_run; lia. }
  assert (Hres : jpeg_simd_cpu_support 256 Linux (always w) = Some 256).
  { apply (linux_result 256 (always w) 10 false 256).
    - lia.
    - intros j Hj. exists 256. apply Hall. lia.
    - apply (Hall 10%nat). lia.
    - right. reflexivity. }
  split; [exact Hall | split; [exact Hres|]].
  rewrite Hres. discriminate.
Qed.

(** C7.  When [/proc/cpuinfo] cannot be opened, a call of
    [parse_proc_cpuinfo] that got its line buffer returns TRUE with the
    mask set to zero, and [jpeg_simd_cpu_support] returns zero, without
    any error. *)
Theorem unopenable_cpuinfo_reports_nothing :
  forall (J : Z) (env : nat -> World),
    (forall k, proc_cpuinfo (env k) = None) ->
    (forall k bufsize m,
        malloc_succeeds (env k) = true ->
        parse_proc_cpuinfo J bufsize (env k) m = Some (true, 0)) /\
    jpeg_simd_cpu_support J Linux env = Some 0.
Proof.
  intros J env Hnone. split.
  - intros k bufsize m Hm.
    rewrite (parse_unopenable J bufsize (env k) m (Hnone k)), Hm. reflexivity.
  - destruct (linux_outcome J env) as (k & ok & m & _ & Hr & Hp & _).
    rewrite (parse_unopenable J _ (env k) 0 (Hnone k)) in Hp.
    inversion Hp; subst. exact Hr.
Qed.

Lemma unopenable_cpuinfo_reports_nothing_witness :
  (forall k bufsize m,
      malloc_succeeds (always {| malloc_succeeds := true; proc_cpuinfo := None |} k) = true ->
      parse_proc_cpuinfo 256 bufsize
        (always {| malloc_succeeds := true; proc_cpuinfo := None |} k) m
      = Some (true, 0)) /\
  jpeg_simd_cpu_support 256 Linux
    (always {| malloc_succeeds := true; proc_cpuinfo := None |}) = Some 0.
Proof.
  apply (unopenable_cpuinfo_reports_nothing 256
           (always {| malloc_succeeds := true; proc_cpuinfo := None |})).
  intros k. reflexivity.
Defined.

(** A bit seen by a failed call is not carried over: the first call sees the
    feature and then a line of 1500 characters, the second call finds a
    file that no longer lists the feature. *)
Example earlier_bit_does_not_survive :
  let first := {| malloc_succeeds := true;
                  proc_cpuinfo :=
                    Some ("ASEs implemented: loongson-mmi"
                          ++ String LF (fill "x" 1500 ++ String LF "")) |} in
  let later := {| malloc_succeeds := true;
                  proc_cpuinfo := Some ("ASEs implemented: vz" ++ String LF "") |} in
  let env := fun k => match k with O => first | S _ => later end in
  parse_proc_cpuinfo 256 1024 first 0 = Some (false, 256) /\
  jpeg_simd_cpu_support 256 Linux env = Some 0.
Proof. vm_compute. split; reflexivity. Qed.

(* ===================================================================== *)
(** * turbojpeg.h: padding and scaling *)
(* ===================================================================== *)

Section Arithmetic.

Lemma int_result_in_range z :
  INT_MIN <= z <= INT_MAX -> int_result z = Some z.
Proof.
  intros [Hl Hu]. unfold int_result.
  apply Z.leb_le in Hl. apply Z.leb_le in Hu. rewrite Hl, Hu. reflexivity.
Qed.

(** Masking with [~3] clears the two low bits. *)
Lemma land_lnot_3 x : Z.land x (Z.lnot 3) = 4 * (x / 4).
Proof.
  rewrite <- Z.ldiff_land. change 3 with (Z.ones 2).
  rewrite Z.ldiff_ones_r by lia.
  rewrite Z.shiftr_div_pow2, Z.shiftl_mul_pow2 by lia.
  change (2 ^ 2) with 4. ring.
Qed.

(** The rounded-up quotient of non-negative operands. *)
Lemma quot_round_up a b :
  0 <= a -> 1 <= b ->
  Z.quot (a + b - 1) b = - ((- a) / b).
Proof.
  intros Ha Hb. rewrite Z.quot_div_nonneg by lia.
  pose proof (Z.div_mod (a + b - 1) b ltac:(lia)).
  pose proof (Z.mod_pos_bound (a + b - 1) b ltac:(lia)).
  pose proof (Z.div_mod (- a) b ltac:(lia)).
  pose proof (Z.mod_pos_bound (- a) b ltac:(lia)).
  nia.
Qed.

End Arithmetic.

(** C10.  For a width that is not negative and for which [width + 3]
    stays within [int], [TJPAD(width)] is the least multiple of 4 that is
    not below the width. *)
Theorem TJPAD_least_multiple_of_4 :
  forall width : Z,
    0 <= width -> width + 3 <= INT_MAX ->
    exists p,
      TJPAD width = Some p /\
      p mod 4 = 0 /\ width <= p /\
      forall q, q mod 4 = 0 -> width <= q -> p <= q.
Proof.
  intros width H0 Hmax.
  exists (4 * ((width + 3) / 4)).
  unfold TJPAD, int_add, int_bind.
  rewrite int_result_in_range by (unfold INT_MIN; lia).
  rewrite land_lnot_3.
  pose proof (Z.div_mod (width + 3) 4 ltac:(lia)).
  pose proof (Z.mod_pos_bound (width + 3) 4 ltac:(lia)).
  repeat split.
  - rewrite Z.mul_comm. apply Z.mod_mul. lia.
  - lia.
  - intros q Hq Hle.
    pose proof (Z.div_mod q 4 ltac:(lia)). rewrite Hq in *. lia.
Qed.

Lemma TJPAD_least_multiple_of_4_witness :
  exists p,
    TJPAD 35 = Some p /\
    p mod 4 = 0 /\ 35 <= p /\
    forall q, q mod 4 = 0 -> 35 <= q -> p <= q.
Proof.
  apply (TJPAD_least_multiple_of_4 35); [lia | unfold INT_MAX; lia].
Defined.

Example TJPAD_35 : TJPAD 35 = Some 36.
Proof. reflexivity. Qed.

Example TJPAD_overflow : TJPAD INT_MAX = None.
Proof. reflexivity. Qed.

(** C5.  For a dimension that is not negative and a scaling factor with
    numerator and denominator at least 1, as long as the sum
    [dimension * num + denom] stays within [int], [TJSCALED] is the
    ceiling of the rational [dimension * num / denom]: the one integer [r]
    with [denom * (r - 1) < dimension * num <= denom * r]. *)
Theorem TJSCALED_is_ceiling :
  forall (dimension : Z) (sf : tjscalingfactor),
    0 <= dimension -> 1 <= num sf -> 1 <= denom sf ->
    dimension * num sf + denom sf <= INT_MAX ->
    exists r,
      TJSCALED dimension sf = Some r /\
      r = Qceiling (inject_Z dimension * factor_value sf) /\
      denom sf * (r - 1) < dimension * num sf <= denom sf * r.
Proof.
  intros d [n dn] Hd Hn Hdn Hmax. simpl in *.
  assert (Hprod : 0 <= d * n) by nia.
  exists (Z.quot (d * n + dn - 1) dn).
  unfold TJSCALED, int_mul, int_add, int_sub, int_div, int_bind. simpl num. simpl denom.
  rewrite (int_result_in_range (d * n)) by (unfold INT_MIN; lia).
  rewrite (int_result_in_range (d * n + dn)) by (unfold INT_MIN; lia).
  rewrite (int_result_in_range (d * n + dn - 1)) by (unfold INT_MIN; lia).
  destruct (dn =? 0) eqn:E; [apply Z.eqb_eq in E; lia|].
  assert (Hq : Z.quot (d * n + dn - 1) dn = - ((- (d * n)) / dn))
    by (apply quot_round_up; lia).
  pose proof (Z.div_mod (- (d * n)) dn ltac:(lia)).
  pose proof (Z.mod_pos_bound (- (d * n)) dn ltac:(lia)).
  split; [|split].
  - apply int_result_in_range. rewrite Hq. unfold INT_MIN. nia.
  - rewrite Hq. unfold Qceiling, Qfloor, factor_value, inject_Z, Qmult, Qopp.
    simpl Qnum. simpl Qden. simpl num. simpl denom.
    rewrite Z2Pos.id by lia. reflexivity.
  - rewrite Hq. nia.
Qed.

Lemma TJSCALED_is_ceiling_witness :
  exists r,
    TJSCALED 100 {| num := 5; denom := 8 |} = Some r /\
    r = Qceiling (inject_Z 100 * factor_value {| num := 5; denom := 8 |}) /\
    denom {| num := 5; denom := 8 |} * (r - 1)
      < 100 * num {| num := 5; denom := 8 |}
      <= denom {| num := 5; denom := 8 |} * r.
Proof.
  apply (TJSCALED_is_ceiling 100 {| num := 5; denom := 8 |});
    simpl; unfold INT_MAX; lia.
Defined.

(* ===================================================================== *)
(** * turbojpeg.h: choosing a scaling factor *)
(* ===================================================================== *)

Section Selection.

(** The list is in lowest terms and strictly decreasing. *)
Lemma scaling_factors_lowest_terms :
  Forall (fun sf => Z.gcd (num sf) (denom sf) = 1) tjGetScalingFactors.
Proof. repeat constructor. Qed.

Lemma scaling_factors_largest_first :
  StronglySorted (fun a b => (factor_value b < factor_value a)%Q)
                 tjGetScalingFactors.
Proof. repeat (constructor; [|repeat constructor]). constructor. Qed.

(** [find] returns the first element that passes the test. *)
Lemma find_first {A} (f : A -> bool) (l1 l2 : list A) (x : A) :
  forallb (fun y => negb (f y)) l1 = true -> f x = true ->
  find f (l1 ++ x :: l2)%list = Some x.
Proof.
  intros Hl Hx. induction l1 as [|y l1 IH]; simpl in *.
  - now rewrite Hx.
  - apply andb_true_iff in Hl. destruct Hl as [Hy Hl].
    apply negb_true_iff in Hy. rewrite Hy. auto.
Qed.

Lemma int_result_some z v : int_result z = Some v -> v = z.
Proof.
  unfold int_result.
  destruct ((INT_MIN <=? z) && (z <=? INT_MAX)); congruence.
Qed.

(** Whatever its denominator, a factor of at least 5/8 scales 100 beyond
    60. *)
Lemma large_factor_does_not_fit sf :
  1 <= num sf -> 1 <= denom sf ->
  (5 # 8 <= factor_value sf)%Q ->
  fits 100 60 sf = false.
Proof.
  destruct sf as [n d]. unfold factor_value, Qle. cbn [Qnum Qden num denom].
  intros Hn Hd Hq. rewrite Z2Pos.id in Hq by lia.
  unfold fits, TJSCALED, int_mul, int_add, int_sub, int_div, int_bind.
  cbn [num denom].
  destruct (int_result (100 * n)) as [a|] eqn:Ea; [|reflexivity].
  apply int_result_some in Ea. subst a.
  destruct (int_result (100 * n + d)) as [b|] eqn:Eb; [|reflexivity].
  apply int_result_some in Eb. subst b.
  destruct (int_result (100 * n + d - 1)) as [c|] eqn:Ec; [|reflexivity].
  apply int_result_some in Ec. subst c.
  destruct (d =? 0); [reflexivity|].
  destruct (int_result (Z.quot (100 * n + d - 1) d)) as [r|] eqn:Er; [|reflexivity].
  apply int_result_some in Er. subst r.
  apply Z.leb_gt. rewrite Z.quot_div_nonneg by lia.
  assert (63 <= (100 * n + d - 1) / d); [|lia].
  apply Z.div_le_lower_bound; lia.
Qed.

(** The choice of 1/2 does not depend on which factors above 5/8 the list
    has: in any list where 1/2 comes after factors of at least 5/8 only,
    it is the one selected. *)
Lemma select_half_after_larger (before after : list tjscalingfactor) :
  Forall (fun sf => 1 <= num sf /\ 1 <= denom sf /\
                    (5 # 8 <= factor_value sf)%Q) before ->
  select_scaling_factor (before ++ {| num := 1; denom := 2 |} :: after)%list 100 60
  = Some {| num := 1; denom := 2 |}.
Proof.
  intros Hall. unfold select_scaling_factor.
  apply find_first; [|reflexivity].
  apply forallb_forall. intros sf Hin.
  rewrite Forall_forall in Hall. destruct (Hall sf Hin) as (Hn & Hd & Hq).
  rewrite large_factor_does_not_fit by assumption. reflexivity.
Qed.

End Selection.

(** C6.  From the supported factors, largest first, a dimension of 100 and
    a requested width of 60 select 1/2, which scales 100 to 50.  The factor
    just before it in the list, 5/8, scales 100 to 63 and does not fit; no
    factor that fits is larger than 1/2. *)
Theorem select_100_into_60 :
  select_scaling_factor tjGetScalingFactors 100 60
    = Some {| num := 1; denom := 2 |} /\
  TJSCALED 100 {| num := 1; denom := 2 |} = Some 50 /\
  TJSCALED 100 {| num := 5; denom := 8 |} = Some 63 /\
  fits 100 60 {| num := 5; denom := 8 |} = false /\
  (exists before after,
      tjGetScalingFactors =
      (before ++ [{| num := 5; denom := 8 |}; {| num := 1; denom := 2 |}] ++ after)%list) /\
  (forall sf, In sf tjGetScalingFactors -> fits 100 60 sf = true ->
              (factor_value sf <= 1 # 2)%Q).
Proof.
  split; [|split; [|split; [|split; [|split]]]]; try reflexivity.
  - exists (firstn 11 tjGetScalingFactors), (skipn 13 tjGetScalingFactors).
    reflexivity.
  - intros sf Hin Hfit. simpl in Hin.
    repeat (destruct Hin as [<- | Hin]; [first [discriminate Hfit | (vm_compute; discriminate)]|]).
    contradiction.
Qed.

(* ===================================================================== *)
(** * turbojpeg.h: the subsampling tables *)
(* ===================================================================== *)

(** C4.  For each of the six subsampling options the iMCU width is 8
    times the horizontal subsampling factor and the iMCU height 8 times
    the vertical one: 8x8 for 4:4:4 and grayscale, 16x8 for 4:2:2, 8x16
    for 4:4:0, 16x16 for 4:2:0 and 32x8 for 4:1:1. *)
Theorem iMCU_is_8_times_factor :
  forall i : Z,
    0 <= i < TJ_NUMSAMP ->
    exists s,
      TJSAMP_of_index i = Some s /\ TJSAMP_value s = i /\
      aref tjMCUWidth i = Some (8 * horizontal_factor s) /\
      aref tjMCUHeight i = Some (8 * vertical_factor s) /\
      (8 * horizontal_factor s, 8 * vertical_factor s) =
      match s with
      | TJSAMP_444 | TJSAMP_GRAY => (8, 8)
      | TJSAMP_422 => (16, 8)
      | TJSAMP_440 => (8, 16)
      | TJSAMP_420 => (16, 16)
      | TJSAMP_411 => (32, 8)
      end.
Proof.
  intros i Hi. unfold TJ_NUMSAMP in Hi.
  each_index i Hi;
    eexists; (split; [reflexivity|]); repeat split.
Qed.

Lemma iMCU_is_8_times_factor_witness :
  exists s,
    TJSAMP_of_index 5 = Some s /\ TJSAMP_value s = 5 /\
    aref tjMCUWidth 5 = Some (8 * horizontal_factor s) /\
    aref tjMCUHeight 5 = Some (8 * vertical_factor s) /\
    (8 * horizontal_factor s, 8 * vertical_factor s) =
    match s with
    | TJSAMP_444 | TJSAMP_GRAY => (8, 8)
    | TJSAMP_422 => (16, 8)
    | TJSAMP_440 => (8, 16)
    | TJSAMP_420 => (16, 16)
    | TJSAMP_411 => (32, 8)
    end.
Proof.
  apply (iMCU_is_8_times_factor 5). unfold TJ_NUMSAMP. lia.
Defined.

(* ===================================================================== *)
(** * turbojpeg.h: the pixel format tables *)
(* ===================================================================== *)

(** A component that is not among the bytes of a pixel has position -1. *)
Lemma position_absent c l :
  ~ In c l -> position c l = -1.
Proof.
  induction l as [|d l IH]; intros Hn; [reflexivity|].
  simpl. destruct (component_eqb c d) eqn:E.
  - elim Hn. left. destruct c, d; simpl in E; congruence.
  - rewrite IH by (intros H; apply Hn; right; exact H). reflexivity.
Qed.

(** C3 as stated fails: TJPF_RGBX has 4-byte pixels, but only three of its
    four offsets are defined (the fourth byte is the ignored X). *)
Lemma rgbx_size_is_not_offset_count :
  aref tjPixelSize (TJPF_value TJPF_RGBX) = Some 4 /\
  defined_offsets (TJPF_value TJPF_RGBX) = 3 /\
  aref tjPixelSize (TJPF_value TJPF_RGBX)
    <> Some (defined_offsets (TJPF_value TJPF_RGBX)).
Proof. repeat split. discriminate. Qed.

(** C3, as the tables have it.  For each of the 12 pixel formats the pixel
    size is the number of bytes the format stores per pixel; the number of
    defined offsets among red, green, blue and alpha is at most the pixel
    size, and equal to it exactly for RGB, BGR, RGBA, BGRA, ABGR and ARGB;
    every defined offset lies in [0, pixel size); and each of the four
    offsets is the position of its channel among the bytes of the pixel,
    which is the sentinel -1 when the format has no such channel. *)
Theorem pixel_format_tables_agree :
  forall i : Z,
    0 <= i < TJ_NUMPF ->
    let f := TJPF_of_index i in
    exists size,
      TJPF_value f = i /\
      aref tjPixelSize i = Some size /\
      size = Z.of_nat (List.length (pixel_bytes f)) /\
      defined_offsets i <= size /\
      (defined_offsets i = size <->
       In f [TJPF_RGB; TJPF_BGR; TJPF_RGBA; TJPF_BGRA; TJPF_ABGR; TJPF_ARGB]) /\
      (forall t o,
          In t [tjRedOffset; tjGreenOffset; tjBlueOffset; tjAlphaOffset] ->
          aref t i = Some o -> o = -1 \/ 0 <= o < size) /\
      aref tjRedOffset i = Some (position Red (pixel_bytes f)) /\
      aref tjGreenOffset i = Some (position Green (pixel_bytes f)) /\
      aref tjBlueOffset i = Some (position Blue (pixel_bytes f)) /\
      aref tjAlphaOffset i = Some (position Alpha (pixel_bytes f)) /\
      (forall c, In c [Red; Green; Blue; Alpha] -> ~ In c (pixel_bytes f) ->
                 position c (pixel_bytes f) = -1).
Proof.
  intros i Hi f. unfold TJ_NUMPF in Hi. subst f.
  each_index i Hi;
    (eexists; split; [reflexivity|]; split; [reflexivity|];
     split; [reflexivity|]; split; [vm_compute; discriminate|];
     split; [|split; [|split; [reflexivity|split; [reflexivity|
       split; [reflexivity|split; [reflexivity|]]]]]]).
  all: try (intros c _ Hc; apply position_absent; exact Hc).
  all: try (intros t o Ht Ho; simpl in Ht;
            repeat (destruct Ht as [<- | Ht];
                    [vm_compute in Ho; inversion Ho; subst; lia|]);
            contradiction).
  all: vm_compute; split;
    [ first [ discriminate | intros _; tauto ]
    | first [ reflexivity
            | intros H; repeat (destruct H as [H | H]; [discriminate H|]);
              contradiction ] ].
Qed.

Lemma pixel_format_tables_agree_witness :
  let f := TJPF_of_index 9 in
  exists size,
    TJPF_value f = 9 /\
    aref tjPixelSize 9 = Some size /\
    size = Z.of_nat (List.length (pixel_bytes f)) /\
    defined_offsets 9 <= size /\
    (defined_offsets 9 = size <->
     In f [TJPF_RGB; TJPF_BGR; TJPF_RGBA; TJPF_BGRA; TJPF_ABGR; TJPF_ARGB]) /\
    (forall t o,
        In t [tjRedOffset; tjGreenOffset; tjBlueOffset; tjAlphaOffset] ->
        aref t 9 = Some o -> o = -1 \/ 0 <= o < size) /\
    aref tjRedOffset 9 = Some (position Red (pixel_bytes f)) /\
    aref tjGreenOffset 9 = Some (position Green (pixel_bytes f)) /\
    aref tjBlueOffset 9 = Some (position Blue (pixel_bytes f)) /\
    aref tjAlphaOffset 9 = Some (position Alpha (pixel_bytes f)) /\
    (forall c, In c [Red; Green; Blue; Alpha] -> ~ In c (pixel_bytes f) ->
               position c (pixel_bytes f) = -1).
Proof.
  apply (pixel_format_tables_agree 9). unfold TJ_NUMPF. lia.
Defined.

(* ===================================================================== *)
(** * More on the word matcher *)
(* ===================================================================== *)

Section Tokens.

Lemma exists_accepted_cons f c b :
  (exists k, accepted_at f (String c b) k = true) <->
  accepted_at f (String c b) 0 = true \/ exists k, accepted_at f b k = true.
Proof.
  split.
  - intros [[|k] Hk]; [left; exact Hk | right; exists k; exact Hk].
  - intros [H | [k Hk]]; [exists O; exact H | exists (S k); exact Hk].
Qed.

Lemma accepted_at_head a f c b :
  accepted_at (String a f) (String c b) 0 =
  if ascii_dec a c then accepted_at f b 0 else false.
Proof.
  unfold accepted_at, occurs_at, boundary_after. simpl.
  destruct (ascii_dec a c); reflexivity.
Qed.

Lemma accepted_nowhere_in_empty f k :
  f <> EmptyString -> accepted_at f EmptyString k = false.
Proof.
  intros Hf. unfold accepted_at, occurs_at.
  replace (advance k "") with EmptyString by (destruct k; reflexivity).
  rewrite (prefix_empty_r f Hf). reflexivity.
Qed.

Lemma clean_nul_free s : clean s = true -> nul_free s = true.
Proof.
  induction s as [|c s IH]; simpl; [reflexivity|]. intros H.
  apply andb_true_iff in H. destruct H as [H Hs].
  apply andb_true_iff in H. destruct H as [_ Hn].
  rewrite Hn, (IH Hs). reflexivity.
Qed.

Lemma clean_head_not_space f :
  clean f = true -> isspace (deref f 0) = false.
Proof.
  destruct f as [|c f]; [reflexivity|]. simpl. intros H.
  apply andb_true_iff in H. destruct H as [H _].
  apply andb_true_iff in H. destruct H as [H _].
  apply negb_true_iff in H. exact H.
Qed.

(** Skipping white space neither loses nor invents an accepted
    occurrence. *)
Lemma accepted_skip_spaces f b :
  f <> EmptyString -> isspace (deref f 0) = false ->
  (exists k, accepted_at f (skip_spaces b) k = true) <->
  (exists k, accepted_at f b k = true).
Proof.
  intros Hf Hsp. split.
  - induction b as [|c b IH]; [trivial|]. simpl.
    destruct (isspace c); [|trivial].
    intros H. destruct (IH H) as [k Hk]. exists (S k). exact Hk.
  - intros [k Hk]. exact (accepted_after_spaces f b k Hf Hsp Hk).
Qed.

Lemma skip_all_spaces pre b :
  all_spaces pre = true -> skip_spaces (pre ++ b) = skip_spaces b.
Proof.
  induction pre as [|c pre IH]; simpl; [reflexivity|]. intros H.
  apply andb_true_iff in H. destruct H as [Hc Hp]. rewrite Hc. exact (IH Hp).
Qed.

(** At the start of a token the feature is accepted exactly when it is
    the whole token. *)
Lemma accepted_at_token_start : forall w f sep rest,
  clean f = true -> clean w = true -> isspace sep = true ->
  accepted_at f (w ++ String sep rest) 0 = true <-> f = w.
Proof.
  induction w as [|c w IH]; intros f sep rest Hf Hw Hsep.
  - destruct f as [|a f].
    + unfold accepted_at, occurs_at, boundary_after. simpl.
      change (deref (String sep rest) 0) with sep. rewrite Hsep, orb_true_r. tauto.
    + simpl. rewrite accepted_at_head.
      simpl in Hf. destruct (ascii_dec a sep) as [->|].
      * rewrite Hsep in Hf. discriminate.
      * split; discriminate.
  - simpl in Hw. apply andb_true_iff in Hw. destruct Hw as [Hc Hw].
    destruct f as [|a f].
    + unfold accepted_at, occurs_at, boundary_after. simpl.
      change (deref (String c (w ++ String sep rest)) 0) with c.
      apply andb_true_iff in Hc. destruct Hc as [Hc1 Hc2].
      apply negb_true_iff in Hc1. apply negb_true_iff in Hc2.
      rewrite Hc1, Hc2. split; discriminate.
    + simpl in Hf. apply andb_true_iff in Hf. destruct Hf as [_ Hf].
      simpl. rewrite accepted_at_head.
      destruct (ascii_dec a c) as [->|Hne].
      * rewrite (IH f sep rest Hf Hw Hsep). split; congruence.
      * split; [discriminate | congruence].
Qed.

Lemma ends_with_cons c w f :
  ends_with (String c w) f <-> f = String c w \/ ends_with w f.
Proof.
  unfold ends_with. split.
  - intros [[|a pre] H]; simpl in H.
    + left. congruence.
    + right. exists pre. congruence.
  - intros [-> | [pre ->]]; [exists EmptyString | exists (String c pre)]; reflexivity.
Qed.

Lemma ends_with_empty f : ends_with EmptyString f <-> f = EmptyString.
Proof.
  unfold ends_with. split.
  - intros [[|a pre] H]; simpl in H; [congruence | discriminate].
  - intros ->. exists EmptyString. reflexivity.
Qed.

(** An accepted occurrence in a token followed by more text is the end of
    the token or an accepted occurrence in the text. *)
Lemma exists_accepted_token : forall w f sep rest,
  f <> EmptyString -> clean f = true -> clean w = true -> isspace sep = true ->
  (exists k, accepted_at f (w ++ String sep rest) k = true) <->
  ends_with w f \/ exists k, accepted_at f rest k = true.
Proof.
  induction w as [|c w IH]; intros f sep rest Hne Hf Hw Hsep.
  - change ("" ++ String sep rest) with (String sep rest).
    rewrite exists_accepted_cons, ends_with_empty.
    rewrite (accepted_at_token_start "" f sep rest Hf eq_refl Hsep).
    split; intros [H | H]; auto; congruence.
  - change (String c w ++ String sep rest) with (String c (w ++ String sep rest)).
    rewrite exists_accepted_cons, ends_with_cons.
    change (String c (w ++ String sep rest)) with (String c w ++ String sep rest).
    rewrite (accepted_at_token_start (String c w) f sep rest Hf Hw Hsep).
    simpl in Hw. apply andb_true_iff in Hw. destruct Hw as [_ Hw].
    rewrite (IH f sep rest Hne Hf Hw Hsep). tauto.
Qed.

Lemma exists_accepted_tokens f : forall toks,
  f <> EmptyString -> clean f = true ->
  forallb (fun t => clean (fst t) && isspace (snd t)) toks = true ->
  (exists k, accepted_at f (tokens_text toks) k = true) <->
  (exists w sep, In (w, sep) toks /\ ends_with w f).
Proof.
  induction toks as [|[w sep] toks IH]; intros Hne Hf Hall.
  - simpl. split.
    + intros [k Hk]. rewrite accepted_nowhere_in_empty in Hk by assumption.
      discriminate.
    + intros (w & sep & [] & _).
  - simpl in Hall. apply andb_true_iff in Hall. destruct Hall as [Ht Hall].
    apply andb_true_iff in Ht. destruct Ht as [Hw Hsep].
    simpl tokens_text. rewrite (exists_accepted_token w f sep _ Hne Hf Hw Hsep).
    rewrite (IH Hne Hf Hall). split.
    + intros [H | (w' & s' & Hin & He)].
      * exists w, sep. split; [left; reflexivity | exact H].
      * exists w', s'. split; [right; exact Hin | exact He].
    + intros (w' & s' & [Heq | Hin] & He).
      * inversion Heq; subst. left. exact He.
      * right. exists w', s'. split; assumption.
Qed.

End Tokens.

Section TrailingNewline.

Lemma check_feature_after_key x f :
  check_feature ("ASEs implemented" ++ x) f =
  if Ascii.eqb (deref f 0) NUL then false else search_loop (skip_spaces x) f.
Proof.
  unfold check_feature. destruct (Ascii.eqb (deref f 0) NUL); [reflexivity|].
  replace (strncmp ("ASEs implemented" ++ x) "ASEs implemented" 16) with 0
    by (simpl; destruct x; reflexivity).
  reflexivity.
Qed.

Lemma prefix_snoc c : forall s f,
  strchr f c = false ->
  String.prefix f (s ++ String c "") = String.prefix f s.
Proof.
  induction s as [|b s IH]; intros f Hf.
  - destruct f as [|a f]; [reflexivity|]. simpl in *.
    apply orb_false_iff in Hf. destruct Hf as [Ha _].
    destruct (ascii_dec a c) as [->|]; [|reflexivity].
    rewrite Ascii.eqb_refl in Ha. discriminate.
  - destruct f as [|a f]; [reflexivity|]. simpl in *.
    apply orb_false_iff in Hf. destruct Hf as [_ Hf].
    destruct (ascii_dec a b); [apply IH; exact Hf | reflexivity].
Qed.

Lemma occurs_at_snoc c f : forall b k,
  f <> EmptyString -> strchr f c = false ->
  occurs_at f (b ++ String c "") k = occurs_at f b k.
Proof.
  unfold occurs_at. induction b as [|a b IH]; intros k Hne Hf.
  - destruct k as [|k].
    + exact (prefix_snoc c "" f Hf).
    + simpl. replace (advance k "") with EmptyString by (destruct k; reflexivity).
      reflexivity.
  - destruct k as [|k].
    + exact (prefix_snoc c (String a b) f Hf).
    + simpl. apply IH; assumption.
Qed.

Lemma boundary_snoc c : forall b j,
  isspace c = true ->
  (Ascii.eqb (deref (b ++ String c "") j) NUL || isspace (deref (b ++ String c "") j))
  = (Ascii.eqb (deref b j) NUL || isspace (deref b j)).
Proof.
  induction b as [|a b IH]; intros j Hc.
  - destruct j as [|j].
    + change (deref ("" ++ String c "") 0) with c. rewrite Hc, orb_true_r.
      reflexivity.
    + destruct j; reflexivity.
  - destruct j as [|j]; [reflexivity|]. exact (IH j Hc).
Qed.

Lemma accepted_at_snoc c f b k :
  f <> EmptyString -> strchr f c = false -> isspace c = true ->
  accepted_at f (b ++ String c "") k = accepted_at f b k.
Proof.
  intros Hne Hf Hc. unfold accepted_at, boundary_after. cbv zeta.
  rewrite occurs_at_snoc, boundary_snoc by assumption. reflexivity.
Qed.

Lemma skip_spaces_snoc c : forall r,
  isspace c = true ->
  skip_spaces (r ++ String c "") =
  match skip_spaces r with
  | EmptyString => EmptyString
  | String _ _ => skip_spaces r ++ String c ""
  end.
Proof.
  induction r as [|a r IH]; intros Hc; simpl.
  - rewrite Hc. reflexivity.
  - destruct (isspace a); [exact (IH Hc) | reflexivity].
Qed.

Lemma advance_app : forall n s t,
  (n <= String.length s)%nat -> advance n (s ++ t) = advance n s ++ t.
Proof.
  induction n as [|n IH]; intros s t Hn; [reflexivity|].
  destruct s as [|a s]; [simpl in Hn; lia|].
  simpl. apply IH. simpl in Hn. lia.
Qed.

Lemma prefix_length : forall b a,
  String.prefix a b = true -> (String.length a <= String.length b)%nat.
Proof.
  induction b as [|c b IH]; intros a H.
  - destruct a; [simpl; lia | discriminate].
  - destruct a as [|d a]; [simpl; lia|]. simpl in H.
    destruct (ascii_dec d c); [|discriminate].
    apply IH in H. simpl. lia.
Qed.

Lemma newline_changes_nothing line f :
  nul_free f = true -> strchr f LF = false ->
  check_feature (line ++ String LF "") f = check_feature line f.
Proof.
  intros Hn Hf.
  destruct f as [|a f']; [reflexivity|].
  set (f := String a f') in *.
  assert (Hne : f <> EmptyString) by discriminate.
  apply Bool.eq_iff_eq_true.
  rewrite !(check_feature_accepts _ f Hn).
  rewrite (prefix_snoc LF line "ASEs implemented" eq_refl).
  split; intros (H1 & Hp & Hk); (split; [exact H1 | split; [exact Hp|]]);
    assert (Hlen := prefix_length _ _ Hp);
    rewrite advance_app, skip_spaces_snoc in * by (try reflexivity; exact Hlen);
    destruct (skip_spaces (advance 16 line)) as [|c r] eqn:E; try exact Hk;
    destruct Hk as [k Hk]; exists k;
    rewrite accepted_at_snoc in * by (try reflexivity; assumption); exact Hk.
Qed.

End TrailingNewline.

(** X1.  What [check_feature] computes, for any line and any feature
    without NUL: TRUE exactly when the feature is not empty, the line
    starts with "ASEs implemented" and, in what follows the phrase and
    the white space after it, some occurrence of the feature is followed
    by the terminator or by white space.  What stands before the
    occurrence is not part of the condition. *)
Theorem check_feature_tests_trailing_boundary :
  forall line f : string,
    nul_free f = true ->
    (check_feature line f = true <->
     f <> EmptyString /\
     String.prefix "ASEs implemented" line = true /\
     exists k, accepted_at f (skip_spaces (advance 16 line)) k = true).
Proof. exact check_feature_accepts. Qed.

Lemma check_feature_tests_trailing_boundary_witness :
  check_feature "ASEs implemented: vz loongson-mmi" "loongson-mmi" = true <->
  "loongson-mmi" <> EmptyString /\
  String.prefix "ASEs implemented" "ASEs implemented: vz loongson-mmi" = true /\
  exists k,
    accepted_at "loongson-mmi"
      (skip_spaces (advance 16 "ASEs implemented: vz loongson-mmi")) k = true.
Proof.
  apply (check_feature_tests_trailing_boundary
           "ASEs implemented: vz loongson-mmi" "loongson-mmi").
  reflexivity.
Defined.

(** X2.  [check_feature] never misses a whole word: if the feature (not
    empty, without NUL, not starting with white space) stands after the key
    phrase with a boundary on both sides, the function returns TRUE. *)
Theorem check_feature_finds_whole_words :
  forall line f : string,
    f <> EmptyString -> nul_free f = true -> isspace (deref f 0) = false ->
    whole_word_feature line f = true ->
    check_feature line f = true.
Proof. exact whole_word_is_accepted. Qed.

Lemma check_feature_finds_whole_words_witness :
  check_feature "ASEs implemented: vz loongson-mmi loongson-cam" "loongson-mmi" = true.
Proof.
  apply (check_feature_finds_whole_words
           "ASEs implemented: vz loongson-mmi loongson-cam" "loongson-mmi");
    [discriminate | reflexivity | reflexivity | reflexivity].
Defined.

(** X3.  On a line made of the key phrase, white space and tokens, each
    token followed by one white-space character, [check_feature] returns
    TRUE exactly when some token ends with the feature (a feature that is
    not empty and has neither white space nor NUL in it). *)
Theorem check_feature_matches_token_endings :
  forall (pre : string) (toks : list (string * ascii)) (f : string),
    f <> EmptyString -> clean f = true ->
    all_spaces pre = true ->
    forallb (fun t => clean (fst t) && isspace (snd t)) toks = true ->
    (check_feature ("ASEs implemented" ++ pre ++ tokens_text toks) f = true <->
     exists w sep, In (w, sep) toks /\ ends_with w f).
Proof.
  intros pre toks f Hne Hf Hpre Htoks.
  rewrite (check_feature_accepts _ f (clean_nul_free f Hf)).
  change (advance 16 ("ASEs implemented" ++ pre ++ tokens_text toks))
    with (pre ++ tokens_text toks).
  rewrite (skip_all_spaces pre _ Hpre).
  rewrite (accepted_skip_spaces f _ Hne (clean_head_not_space f Hf)).
  rewrite (exists_accepted_tokens f toks Hne Hf Htoks).
  split; [intros (_ & _ & H); exact H|].
  intros H. split; [exact Hne | split; [|exact H]].
  simpl. destruct (pre ++ tokens_text toks); reflexivity.
Qed.

Lemma check_feature_matches_token_endings_witness :
  check_feature
    ("ASEs implemented" ++ String (ascii_of_N 9) ""
     ++ tokens_text [(":", " "%char); ("vz", " "%char); ("xloongson-mmi", LF)])
    "loongson-mmi" = true <->
  exists w sep,
    In (w, sep) [(":", " "%char); ("vz", " "%char); ("xloongson-mmi", LF)]
    /\ ends_with w "loongson-mmi".
Proof.
  apply (check_feature_matches_token_endings
           (String (ascii_of_N 9) "")
           [(":", " "%char); ("vz", " "%char); ("xloongson-mmi", LF)]
           "loongson-mmi");
    [discriminate | reflexivity | reflexivity | reflexivity].
Defined.

(** X4.  The newline that [fgets] leaves at the end of a line makes no
    difference: for a feature without NUL or newline in it,
    [check_feature] gives the same answer with and without it. *)
Theorem check_feature_ignores_final_newline :
  forall line f : string,
    nul_free f = true -> strchr f LF = false ->
    check_feature (line ++ String LF "") f = check_feature line f.
Proof. exact newline_changes_nothing. Qed.

Lemma check_feature_ignores_final_newline_witness :
  check_feature ("ASEs implemented: loongson-mmi" ++ String LF "") "loongson-mmi"
  = check_feature "ASEs implemented: loongson-mmi" "loongson-mmi".
Proof.
  apply (check_feature_ignores_final_newline
           "ASEs implemented: loongson-mmi" "loongson-mmi"); reflexivity.
Defined.

(** X5.  White space between the key phrase and the rest of the line is
    skipped: any amount of it leaves the answer unchanged. *)
Theorem check_feature_skips_leading_space :
  forall pre rest f : string,
    all_spaces pre = true ->
    check_feature ("ASEs implemented" ++ pre ++ rest) f
    = check_feature ("ASEs implemented" ++ rest) f.
Proof.
  intros pre rest f Hpre.
  rewrite !check_feature_after_key, (skip_all_spaces pre rest Hpre).
  reflexivity.
Qed.

Lemma check_feature_skips_leading_space_witness :
  check_feature ("ASEs implemented" ++ "   " ++ "loongson-mmi") "loongson-mmi"
  = check_feature ("ASEs implemented" ++ "loongson-mmi") "loongson-mmi".
Proof.
  apply (check_feature_skips_leading_space "   " "loongson-mmi" "loongson-mmi").
  reflexivity.
Defined.

(* ===================================================================== *)
(** * Files whose lines fit, and files with a line that does not *)
(* ===================================================================== *)

Section WellFormedFiles.

Variable J : Z.

Lemma append_assoc_string (a b c : string) : (a ++ b) ++ c = a ++ (b ++ c).
Proof. induction a as [|x a IH]; simpl; [reflexivity | now rewrite IH]. Qed.

Lemma length_append_string (a b : string) :
  String.length (a ++ b) = (String.length a + String.length b)%nat.
Proof. induction a as [|x a IH]; simpl; [reflexivity | now rewrite IH]. Qed.

Lemma cstr_nul_free s : nul_free s = true -> cstr s = s.
Proof.
  induction s as [|c s IH]; simpl; [reflexivity|]. intros H.
  apply andb_true_iff in H. destruct H as [Hc Hs].
  apply negb_true_iff in Hc. rewrite Hc, (IH Hs). reflexivity.
Qed.

Lemma nul_free_line l : nul_free l = true -> nul_free (l ++ String LF "") = true.
Proof.
  induction l as [|c l IH]; simpl; [reflexivity|]. intros H.
  apply andb_true_iff in H. destruct H as [Hc Hl]. now rewrite Hc, (IH Hl).
Qed.

Lemma strchr_line l : strchr (l ++ String LF "") LF = true.
Proof.
  induction l as [|c l IH]; simpl; [reflexivity | rewrite IH; apply orb_true_r].
Qed.

Lemma strchr_cstr s c : strchr s c = false -> strchr (cstr s) c = false.
Proof.
  induction s as [|d s IH]; simpl; [reflexivity|]. intros H.
  apply orb_false_iff in H. destruct H as [Hd Hs].
  destruct (Ascii.eqb d NUL); [reflexivity|]. simpl. now rewrite Hd, (IH Hs).
Qed.

Lemma line_fits_parts bufsize l :
  line_fits bufsize l = true ->
  nul_free l = true /\ strchr l LF = false /\
  Z.of_nat (String.length l) + 1 < bufsize.
Proof.
  unfold line_fits. intros H.
  apply andb_true_iff in H. destruct H as [H Hlen].
  apply andb_true_iff in H. destruct H as [Hn Hc].
  apply negb_true_iff in Hc. apply Z.ltb_lt in Hlen. auto.
Qed.

(** At the end of the stream [fgets] returns the null pointer. *)
Lemma fgets_at_end bufsize fd :
  pending fd = EmptyString -> 2 <= bufsize ->
  fst (fgets bufsize fd) = None.
Proof.
  intros Hp Hb. unfold fgets.
  destruct (bufsize <=? 0) eqn:E; [reflexivity|]. rewrite Hp.
  destruct (Z.to_nat (bufsize - 1)) eqn:En; [lia|]. reflexivity.
Qed.

Lemma read_lines_at_end fuel bufsize fd m :
  pending fd = EmptyString -> 2 <= bufsize ->
  read_lines J (S fuel) bufsize fd m = Some (true, m).
Proof.
  intros Hp Hb. rewrite read_lines_step.
  pose proof (fgets_at_end bufsize fd Hp Hb) as H.
  destruct (fgets bufsize fd) as [o fd']. simpl in H. subst o. reflexivity.
Qed.

(** An unterminated last line shorter than the room in the buffer is
    read whole, and the end of the stream is noticed. *)
Lemma fgets_chars_tail : forall t n,
  strchr t LF = false -> (String.length t < n)%nat ->
  fgets_chars n t = (t, EmptyString, true).
Proof.
  induction t as [|c t IH]; intros n Hc Hn.
  - destruct n; [lia | reflexivity].
  - destruct n as [|n]; [simpl in Hn; lia|].
    simpl in Hc. apply orb_false_iff in Hc. destruct Hc as [Hc Ht].
    simpl. rewrite Hc, IH by (auto; simpl in Hn; lia). reflexivity.
Qed.

Lemma fgets_tail bufsize fd c t :
  pending fd = String c t -> strchr (String c t) LF = false ->
  Z.of_nat (String.length (String c t)) + 1 < bufsize ->
  fgets bufsize fd =
  (Some (String c t), {| pending := EmptyString; eof_flag := eof_flag fd || true |}).
Proof.
  intros Hp Hc Hlen. unfold fgets.
  destruct (bufsize <=? 0) eqn:E; [apply Z.leb_le in E; lia|].
  rewrite Hp, fgets_chars_tail by (auto; lia). reflexivity.
Qed.

Lemma lor_twice m : Z.lor (Z.lor m J) J = Z.lor m J.
Proof. now rewrite <- Z.lor_assoc, Z.lor_diag. Qed.

(** The line loop on a stream of lines that fit. *)
Lemma read_lines_fitting bufsize tail : forall ls fuel fd m,
  forallb (line_fits bufsize) ls = true ->
  line_fits bufsize tail = true ->
  pending fd = unlines ls ++ tail ->
  (String.length (pending fd) < fuel)%nat ->
  read_lines J fuel bufsize fd m =
  Some (true, if announces ls || check_feature tail "loongson-mmi"
              then Z.lor m J else m).
Proof.
  intros ls. induction ls as [|l ls IH]; intros fuel fd m Hls Htail Hp Hfuel.
  - destruct (line_fits_parts _ _ Htail) as (Hn & Hc & Hlen).
    simpl in Hp. simpl announces. cbn [orb].
    destruct fuel as [|fuel]; [lia|].
    destruct tail as [|c t].
    + rewrite read_lines_at_end by (auto; simpl in Hlen; lia). reflexivity.
    + rewrite read_lines_step, (fgets_tail bufsize fd c t Hp Hc Hlen).
      unfold feof. cbn [eof_flag]. rewrite orb_true_r, andb_false_r.
      rewrite (cstr_nul_free _ Hn).
      destruct fuel as [|fuel]; [rewrite Hp in Hfuel; simpl in Hfuel; lia|].
      rewrite read_lines_at_end by (auto; simpl in Hlen; lia). reflexivity.
  - simpl in Hls. apply andb_true_iff in Hls. destruct Hls as [Hl Hls].
    destruct (line_fits_parts _ _ Hl) as (Hn & Hc & Hlen).
    simpl unlines in Hp. rewrite append_assoc_string in Hp. simpl in Hp.
    destruct fuel as [|fuel]; [lia|].
    rewrite read_lines_step, (fgets_line bufsize fd l _ Hp Hc Hlen).
    rewrite (cstr_nul_free _ (nul_free_line l Hn)), strchr_line.
    cbn [negb andb].
    rewrite (IH fuel {| pending := unlines ls ++ tail; eof_flag := eof_flag fd |}
                _ Hls Htail eq_refl).
    + simpl announces.
      destruct (check_feature (l ++ String LF "") "loongson-mmi"); cbn [orb];
        [|reflexivity].
      rewrite lor_twice.
      destruct (announces ls || check_feature tail "loongson-mmi"); reflexivity.
    + cbn [pending]. rewrite Hp, length_append_string in Hfuel.
      simpl in Hfuel. lia.
Qed.

(** Room for [n] characters and at least [n] characters without a newline
    ahead: [n] characters are read, none of them a newline, and the end of
    the stream is not noticed. *)
Lemma fgets_chars_no_newline : forall n run rest,
  strchr run LF = false -> (n <= String.length run)%nat ->
  exists l r, fgets_chars n (run ++ rest) = (l, r, false) /\ strchr l LF = false.
Proof.
  induction n as [|n IH]; intros run rest Hc Hn.
  - exists EmptyString, (run ++ rest). split; reflexivity.
  - destruct run as [|c run]; [simpl in Hn; lia|].
    simpl in Hc. apply orb_false_iff in Hc. destruct Hc as [Hc Hrun].
    destruct (IH run rest Hrun ltac:(simpl in Hn; lia)) as (l & r & E & Hl).
    exists (String c l), r. simpl. rewrite Hc, E. split; [reflexivity|].
    simpl. exact Hl.
Qed.

Lemma read_lines_overlong bufsize run rest : forall ls fuel fd m,
  1 <= bufsize ->
  forallb (line_fits bufsize) ls = true ->
  strchr run LF = false ->
  bufsize - 1 <= Z.of_nat (String.length run) ->
  pending fd = unlines ls ++ run ++ rest ->
  eof_flag fd = false ->
  (String.length (pending fd) < fuel)%nat ->
  read_lines J fuel bufsize fd m =
  Some (false, if announces ls then Z.lor m J else m).
Proof.
  intros ls. induction ls as [|l ls IH];
    intros fuel fd m Hb Hls Hrun Hlen Hp Heof Hfuel.
  - simpl in Hp. destruct fuel as [|fuel]; [lia|].
    rewrite read_lines_step. unfold fgets.
    destruct (bufsize <=? 0) eqn:E; [apply Z.leb_le in E; lia|].
    destruct (fgets_chars_no_newline (Z.to_nat (bufsize - 1)) run rest Hrun
                ltac:(lia)) as (l & r & El & Hl).
    rewrite Hp, El, Heof.
    assert (Hc := strchr_cstr l LF Hl).
    destruct l; unfold feof; cbn [eof_flag orb]; simpl cstr in *;
      rewrite ?Hc; reflexivity.
  - simpl in Hls. apply andb_true_iff in Hls. destruct Hls as [Hl Hls].
    destruct (line_fits_parts _ _ Hl) as (Hn & Hc & Hll).
    simpl unlines in Hp. rewrite append_assoc_string in Hp. simpl in Hp.
    destruct fuel as [|fuel]; [lia|].
    rewrite read_lines_step, (fgets_line bufsize fd l _ Hp Hc Hll).
    rewrite (cstr_nul_free _ (nul_free_line l Hn)), strchr_line.
    cbn [negb andb].
    rewrite (IH fuel {| pending := unlines ls ++ run ++ rest;
                        eof_flag := eof_flag fd |}
                _ Hb Hls Hrun Hlen eq_refl).
    + simpl announces.
      destruct (check_feature (l ++ String LF "") "loongson-mmi"); cbn [orb];
        [|reflexivity].
      rewrite lor_twice. destruct (announces ls); reflexivity.
    + cbn [eof_flag]. exact Heof.
    + cbn [pending]. rewrite Hp, length_append_string in Hfuel.
      simpl in Hfuel. lia.
Qed.

End WellFormedFiles.

(* ===================================================================== *)
(** * A larger buffer repeats a successful read *)
(* ===================================================================== *)

Section LargerBuffer.

Variable J : Z.

(** A read that ended at a newline is the same with more room. *)
Lemma fgets_chars_newline_stable : forall n s l r e n',
  fgets_chars n s = (l, r, e) -> strchr l LF = true -> (n <= n')%nat ->
  fgets_chars n' s = (l, r, e).
Proof.
  induction n as [|n IH]; intros s l r e n' H Hl Hn; simpl in H.
  - inversion H; subst. discriminate.
  - destruct n' as [|n']; [lia|]. destruct s as [|c s].
    + inversion H; subst. discriminate.
    + simpl. destruct (Ascii.eqb c LF) eqn:Ec; [exact H|].
      destruct (fgets_chars n s) as [[l0 r0] e0] eqn:E.
      inversion H; subst. simpl in Hl. rewrite Ec in Hl. simpl in Hl.
      rewrite (IH s l0 r e n' E Hl ltac:(lia)). reflexivity.
Qed.

(** A read that ran into the end of the stream took everything, and is
    the same with more room. *)
Lemma fgets_chars_end_stable : forall n s l r n',
  fgets_chars n s = (l, r, true) -> (n <= n')%nat ->
  r = EmptyString /\ fgets_chars n' s = (l, r, true).
Proof.
  induction n as [|n IH]; intros s l r n' H Hn; simpl in H.
  - inversion H.
  - destruct n' as [|n']; [lia|]. destruct s as [|c s].
    + inversion H; subst. split; reflexivity.
    + simpl. destruct (Ascii.eqb c LF) eqn:Ec; [inversion H|].
      destruct (fgets_chars n s) as [[l0 r0] e0] eqn:E.
      inversion H; subst.
      destruct (IH s l0 r n' E ltac:(lia)) as [Hr E'].
      rewrite E'. split; [exact Hr | reflexivity].
Qed.

Lemma strchr_of_cstr s c : strchr (cstr s) c = true -> strchr s c = true.
Proof.
  destruct (strchr s c) eqn:E; [reflexivity|].
  rewrite (strchr_cstr s c E). discriminate.
Qed.

(** The line loop: once the end-of-file indicator is set nothing is left
    to read; under that invariant a successful run is repeated step by
    step with any larger buffer. *)
Lemma read_lines_grow b b' : forall fuel fd m mask,
  2 <= b -> b <= b' ->
  (eof_flag fd = true -> pending fd = EmptyString) ->
  read_lines J fuel b fd m = Some (true, mask) ->
  read_lines J fuel b' fd m = Some (true, mask).
Proof.
  induction fuel as [|fuel IH]; intros fd m mask Hb Hbb Hinv H; [discriminate|].
  rewrite read_lines_step in *. unfold fgets in *.
  destruct (b <=? 0) eqn:E1; [apply Z.leb_le in E1; lia|].
  destruct (b' <=? 0) eqn:E2; [apply Z.leb_le in E2; lia|].
  assert (Hn : (Z.to_nat (b - 1) <= Z.to_nat (b' - 1))%nat) by lia.
  destruct (fgets_chars (Z.to_nat (b - 1)) (pending fd)) as [[l r] e] eqn:E.
  destruct l as [|c l].
  - destruct (fgets_chars_nothing _ _ _ _ E) as [(H0 & _) | (Hs & He)]; [lia|].
    rewrite Hs. destruct (Z.to_nat (b' - 1)) eqn:En; [lia|].
    subst e. simpl. exact H.
  - unfold feof in H. cbn [eof_flag] in H.
    destruct (negb (strchr (cstr (String c l)) LF) && negb (eof_flag fd || e)) eqn:Ec;
      [discriminate|].
    apply andb_false_iff in Ec.
    assert (Hsame : fgets_chars (Z.to_nat (b' - 1)) (pending fd) = (String c l, r, e)
                    /\ (eof_flag fd || e = true -> r = EmptyString)).
    { destruct (eof_flag fd) eqn:Ef.
      - rewrite (Hinv eq_refl) in E.
        destruct (Z.to_nat (b - 1)); simpl in E; discriminate.
      - destruct e.
        + destruct (fgets_chars_end_stable _ _ _ _ _ E Hn) as [Hr E'].
          split; [exact E' | intros _; exact Hr].
        + destruct Ec as [Ec | Ec]; [|discriminate].
          apply negb_false_iff, strchr_of_cstr in Ec.
          split; [|discriminate].
          exact (fgets_chars_newline_stable _ _ _ _ _ _ E Ec Hn). }
    destruct Hsame as [E' Hr]. rewrite E'.
    unfold feof. cbn [eof_flag].
    destruct (negb (strchr (cstr (String c l)) LF) && negb (eof_flag fd || e)) eqn:Ec';
      [destruct Ec as [Ec | Ec]; rewrite Ec in Ec';
       [discriminate | rewrite andb_false_r in Ec'; discriminate]|].
    apply (IH _ _ _ Hb Hbb); [exact Hr | exact H].
Qed.

Lemma parse_grow b b' w m m' mask :
  2 <= b -> b <= b' ->
  parse_proc_cpuinfo J b w m = Some (true, mask) ->
  parse_proc_cpuinfo J b' w m' = Some (true, mask).
Proof.
  unfold parse_proc_cpuinfo. intros Hb Hbb.
  destruct (malloc_succeeds w); cbn [negb]; [|discriminate].
  unfold fopen. destruct (proc_cpuinfo w) as [bytes|]; [|trivial].
  apply read_lines_grow; auto. cbn [eof_flag]. discriminate.
Qed.

End LargerBuffer.

(* ===================================================================== *)
(** * The probe on whole files *)
(* ===================================================================== *)

Section WholeFiles.

Variable J : Z.

Lemma parse_fitting bufsize ls tail m :
  forallb (line_fits bufsize) ls = true ->
  line_fits bufsize tail = true ->
  parse_proc_cpuinfo J bufsize
    {| malloc_succeeds := true; proc_cpuinfo := Some (unlines ls ++ tail) |} m
  = Some (true, if announces ls || check_feature tail "loongson-mmi"
                then J else 0).
Proof.
  intros Hls Htail. unfold parse_proc_cpuinfo, fopen.
  cbn [malloc_succeeds proc_cpuinfo negb pending].
  rewrite (read_lines_fitting J bufsize tail ls _
             {| pending := unlines ls ++ tail; eof_flag := false |}
             0 Hls Htail eq_refl)
    by (cbn [pending]; lia).
  rewrite Z.lor_0_l. reflexivity.
Qed.

Lemma parse_overlong bufsize ls run rest m :
  1 <= bufsize ->
  forallb (line_fits bufsize) ls = true ->
  strchr run LF = false ->
  bufsize - 1 <= Z.of_nat (String.length run) ->
  parse_proc_cpuinfo J bufsize
    {| malloc_succeeds := true;
       proc_cpuinfo := Some (unlines ls ++ run ++ rest) |} m
  = Some (false, if announces ls then J else 0).
Proof.
  intros Hb Hls Hrun Hlen. unfold parse_proc_cpuinfo, fopen.
  cbn [malloc_succeeds proc_cpuinfo negb pending].
  rewrite (read_lines_overlong J bufsize run rest ls _
             {| pending := unlines ls ++ run ++ rest; eof_flag := false |}
             0 Hb Hls Hrun Hlen eq_refl)
    by (cbn [pending eof_flag]; first [reflexivity | lia]).
  rewrite Z.lor_0_l. reflexivity.
Qed.

Lemma line_fits_mono b b' l :
  b <= b' -> line_fits b l = true -> line_fits b' l = true.
Proof.
  intros Hb H. destruct (line_fits_parts _ _ H) as (Hn & Hc & Hlen).
  unfold line_fits. rewrite Hn, Hc. simpl. apply Z.ltb_lt. lia.
Qed.

Lemma lines_fit_mono b b' ls :
  b <= b' -> forallb (line_fits b) ls = true -> forallb (line_fits b') ls = true.
Proof.
  intros Hb H. rewrite forallb_forall in *. intros l Hl.
  exact (line_fits_mono b b' l Hb (H l Hl)).
Qed.

Lemma attempt_bufsize_10 : attempt_bufsize 10 = SOMEWHAT_SANE_PROC_CPUINFO_SIZE_LIMIT.
Proof. reflexivity. Qed.

(** With one unchanging world, a call that succeeds with some buffer of at
    most 1 MiB decides the result of the whole probe. *)
Lemma probe_sufficient w b mask :
  2 <= b -> b <= SOMEWHAT_SANE_PROC_CPUINFO_SIZE_LIMIT ->
  parse_proc_cpuinfo J b w 0 = Some (true, mask) ->
  jpeg_simd_cpu_support J Linux (always w) = Some mask.
Proof.
  intros Hb Hlim Hp.
  assert (Hbig : parse_proc_cpuinfo J (attempt_bufsize 10) w 0 = Some (true, mask)).
  { rewrite attempt_bufsize_10. exact (parse_grow J b _ w 0 0 mask Hb Hlim Hp). }
  destruct (linux_outcome J (always w)) as (k & ok & m & Hk & Hr & Hpk & _ & Hs).
  unfold always in Hpk. rewrite Hr. f_equal.
  destruct Hs as [-> | ->].
  - assert (Hbk := attempt_bufsize_bounds k Hk).
    assert (H := parse_grow J (attempt_bufsize k) (attempt_bufsize 10) w 0 0 m
                   ltac:(lia) ltac:(rewrite attempt_bufsize_10;
                                    unfold SOMEWHAT_SANE_PROC_CPUINFO_SIZE_LIMIT; lia)
                   Hpk).
    congruence.
  - congruence.
Qed.

Lemma probe_on_fitting_lines ls tail :
  forallb (line_fits SOMEWHAT_SANE_PROC_CPUINFO_SIZE_LIMIT) ls = true ->
  line_fits SOMEWHAT_SANE_PROC_CPUINFO_SIZE_LIMIT tail = true ->
  jpeg_simd_cpu_support J Linux
    (always {| malloc_succeeds := true;
               proc_cpuinfo := Some (unlines ls ++ tail) |})
  = Some (if announces ls || check_feature tail "loongson-mmi" then J else 0).
Proof.
  intros Hls Htail.
  apply (probe_sufficient _ SOMEWHAT_SANE_PROC_CPUINFO_SIZE_LIMIT).
  - unfold SOMEWHAT_SANE_PROC_CPUINFO_SIZE_LIMIT. lia.
  - lia.
  - exact (parse_fitting _ ls tail 0 Hls Htail).
Qed.

Lemma calls_fail_on_overlong_line ls run rest k :
  forallb (line_fits 1024) ls = true ->
  strchr run LF = false ->
  SOMEWHAT_SANE_PROC_CPUINFO_SIZE_LIMIT - 1 <= Z.of_nat (String.length run) ->
  (k <= 10)%nat ->
  parse_proc_cpuinfo J (1024 * 2 ^ Z.of_nat k)
    {| malloc_succeeds := true;
       proc_cpuinfo := Some (unlines ls ++ run ++ rest) |} 0
  = Some (false, if announces ls then J else 0).
Proof.
  intros Hls Hrun Hlen Hk.
  assert (Hb := attempt_bufsize_bounds k Hk). unfold attempt_bufsize in Hb.
  unfold SOMEWHAT_SANE_PROC_CPUINFO_SIZE_LIMIT in Hlen.
  apply parse_overlong; try assumption; try lia.
  apply (lines_fit_mono 1024); [lia | exact Hls].
Qed.

Lemma probe_on_overlong_line ls run rest :
  forallb (line_fits 1024) ls = true ->
  strchr run LF = false ->
  SOMEWHAT_SANE_PROC_CPUINFO_SIZE_LIMIT - 1 <= Z.of_nat (String.length run) ->
  jpeg_simd_cpu_support J Linux
    (always {| malloc_succeeds := true;
               proc_cpuinfo := Some (unlines ls ++ run ++ rest) |})
  = Some (if announces ls then J else 0).
Proof.
  intros Hls Hrun Hlen.
  set (w := {| malloc_succeeds := true;
               proc_cpuinfo := Some (unlines ls ++ run ++ rest) |}).
  assert (Hall : forall k, (k <= 10)%nat ->
            attempt_fails J (always w) k (if announces ls then J else 0)).
  { intros k Hk. unfold attempt_fails, always, w.
    exact (calls_fail_on_overlong_line ls run rest k Hls Hrun Hlen Hk). }
  apply (linux_result J (always w) 10 false).
  - lia.
  - intros j Hj. eexists. apply Hall. lia.
  - apply (Hall 10%nat). lia.
  - right. reflexivity.
Qed.

Lemma probe_without_memory env :
  (forall k, (k <= 10)%nat -> malloc_succeeds (env k) = false) ->
  jpeg_simd_cpu_support J Linux env = Some 0.
Proof.
  intros Hm.
  assert (Hall : forall k, (k <= 10)%nat -> attempt_fails J env k 0).
  { intros k Hk. unfold attempt_fails, parse_proc_cpuinfo.
    rewrite (Hm k Hk). reflexivity. }
  apply (linux_result J env 10 false).
  - lia.
  - intros j Hj. exists 0. apply Hall. lia.
  - apply (Hall 10%nat). lia.
  - right. reflexivity.
Qed.

Lemma probe_reads_11_worlds b env env' :
  (forall k, (k <= 10)%nat -> env k = env' k) ->
  jpeg_simd_cpu_support J b env = jpeg_simd_cpu_support J b env'.
Proof.
  intros Heq. destruct b; [reflexivity| |reflexivity].
  destruct (linux_outcome J env) as (k & ok & m & Hk & Hr & Hp & Hf & Hs).
  rewrite Hr. symmetry. apply (linux_result J env' k ok m Hk).
  - intros j Hj. destruct (Hf j Hj) as [mj Hmj]. exists mj.
    unfold attempt_fails in *. rewrite <- (Heq j) by lia. exact Hmj.
  - rewrite <- (Heq k Hk). exact Hp.
  - exact Hs.
Qed.

Lemma length_fill c n : String.length (fill c n) = n.
Proof. induction n; simpl; [reflexivity | now rewrite IHn]. Qed.

End WholeFiles.

(** C2, as the code has it.  The loop calls [parse_proc_cpuinfo] with
    buffers of 1024, 2048, ... bytes, call number [k] with [1024 * 2^k],
    each call reading the stream from its start.  If the calls before
    number [k] failed and call [k] either succeeds or is the one with the
    1 MiB buffer (after which the doubled size exceeds the ceiling), the
    function returns, without any error, the mask that call [k] left, which
    is empty or the single bit.  What that mask is: if call [k] found
    lines that fit and then a stretch without newline that does not fit
    its buffer, it failed, and the mask is zero unless one of the lines
    before the stretch announced the feature, in which case it is
    [JSIMD_MMI]; if all the lines fit, it succeeded, and the mask has
    [JSIMD_MMI] exactly when some line of the whole file announced the
    feature. *)
Theorem retry_doubles_up_to_ceiling :
  forall (J : Z) (env : nat -> World) (k : nat) (ok : bool) (m : Z),
    (k <= 10)%nat ->
    (forall j, (j < k)%nat -> exists mj, attempt_fails J env j mj) ->
    parse_proc_cpuinfo J (1024 * 2 ^ Z.of_nat k) (env k) 0 = Some (ok, m) ->
    ok = true \/ k = 10%nat ->
    jpeg_simd_cpu_support J Linux env = Some m /\ (m = 0 \/ m = J) /\
    (forall ls run rest,
        env k = {| malloc_succeeds := true;
                   proc_cpuinfo := Some (unlines ls ++ run ++ rest) |} ->
        forallb (line_fits (1024 * 2 ^ Z.of_nat k)) ls = true ->
        strchr run LF = false ->
        1024 * 2 ^ Z.of_nat k - 1 <= Z.of_nat (String.length run) ->
        ok = false /\ m = (if announces ls then J else 0)) /\
    (forall ls tail,
        env k = {| malloc_succeeds := true;
                   proc_cpuinfo := Some (unlines ls ++ tail) |} ->
        forallb (line_fits (1024 * 2 ^ Z.of_nat k)) ls = true ->
        line_fits (1024 * 2 ^ Z.of_nat k) tail = true ->
        ok = true /\
        m = (if announces ls || check_feature tail "loongson-mmi" then J else 0)).
Proof.
  intros J env k ok m Hk Hfail Hp Hstop.
  split; [exact (linux_result J env k ok m Hk Hfail Hp Hstop)|].
  split; [exact (parse_mask J _ _ _ _ _ Hp)|]. split.
  - intros ls run rest Hw Hls Hrun Hlen. rewrite Hw in Hp.
    assert (Hb := attempt_bufsize_bounds k Hk). unfold attempt_bufsize in Hb.
    assert (H1 : 1 <= 1024 * 2 ^ Z.of_nat k) by lia.
    rewrite (parse_overlong J _ ls run rest 0 H1 Hls Hrun Hlen) in Hp.
    inversion Hp. split; reflexivity.
  - intros ls tail Hw Hls Htail. rewrite Hw in Hp.
    rewrite (parse_fitting J _ ls tail 0 Hls Htail) in Hp.
    inversion Hp. split; reflexivity.
Qed.

(** The theorem at the point where the probe gives up: the file announces
    the feature on its first line and goes on with 2^20 characters without
    a newline, so that all calls, the one with the 1 MiB buffer included,
    fail; the bit of the first line is what is returned. *)
Lemma retry_doubles_up_to_ceiling_witness :
  let w := {| malloc_succeeds := true;
              proc_cpuinfo :=
                Some ("ASEs implemented: loongson-mmi"
                      ++ String LF (fill "x" (Z.to_nat 1048576))) |} in
  jpeg_simd_cpu_support 256 Linux (always w) = Some 256 /\
  (256 = 0 \/ 256 = 256) /\
  (forall ls run rest,
      always w 10%nat = {| malloc_succeeds := true;
                           proc_cpuinfo := Some (unlines ls ++ run ++ rest) |} ->
      forallb (line_fits (1024 * 2 ^ Z.of_nat 10)) ls = true ->
      strchr run LF = false ->
      1024 * 2 ^ Z.of_nat 10 - 1 <= Z.of_nat (String.length run) ->
      false = false /\ 256 = (if announces ls then 256 else 0)) /\
  (forall ls tail,
      always w 10%nat = {| malloc_succeeds := true;
                           proc_cpuinfo := Some (unlines ls ++ tail) |} ->
      forallb (line_fits (1024 * 2 ^ Z.of_nat 10)) ls = true ->
      line_fits (1024 * 2 ^ Z.of_nat 10) tail = true ->
      false = true /\
      256 = (if announces ls || check_feature tail "loongson-mmi" then 256 else 0)).
Proof.
  intros w.
  assert (Hall : forall k, (k <= 10)%nat -> attempt_fails 256 (always w) k 256).
  { intros k Hk. unfold attempt_fails, always, w.
    assert (Hb := attempt_bufsize_bounds k Hk).
    apply parse_feature_then_long_run; lia. }
  apply (retry_doubles_up_to_ceiling 256 (always w) 10 false 256).
  - lia.
  - intros j Hj. exists 256. apply Hall. lia.
  - apply (Hall 10%nat). lia.
  - right. reflexivity.
Defined.

(** One retry: the second line has 1500 characters, so the call with the
    1024-byte buffer fails, after it has seen the feature line, and the
    call with 2048 bytes succeeds. *)
Example one_retry_is_enough :
  jpeg_simd_cpu_support 256 Linux
    (always {| malloc_succeeds := true;
               proc_cpuinfo :=
                 Some ("ASEs implemented: loongson-mmi"
                       ++ String LF (fill "x" 1500 ++ String LF "")) |})
  = Some 256.
Proof. vm_compute. reflexivity. Qed.

(** C8.  On every build [jpeg_simd_cpu_support] returns, and its value is
    0 or exactly [JSIMD_MMI].  [parse_proc_cpuinfo] starts from a mask of
    zero whatever mask it is entered with: a call without its buffer
    leaves 0, a call that cannot open the file leaves 0, and a call that
    reads lines leaves [JSIMD_MMI] exactly when a line it read announced
    the feature, and 0 otherwise.  On Linux the value returned is the mask
    of the last call made (every call before it failed, and it succeeded
    or had the 1 MiB buffer), as that call leaves it from any incoming
    mask.  So what failed calls detected is not carried over: if the last
    call reads a file none of whose lines announces the feature, the
    result is 0 whatever the calls before it had found. *)
Theorem mask_is_zero_or_mmi :
  forall (J : Z) (env : nat -> World),
    (forall b, exists m, jpeg_simd_cpu_support J b env = Some m /\ (m = 0 \/ m = J)) /\
    (forall bufsize w m,
        parse_proc_cpuinfo J bufsize w m = parse_proc_cpuinfo J bufsize w 0) /\
    (forall bufsize w m,
        malloc_succeeds w = false ->
        parse_proc_cpuinfo J bufsize w m = Some (false, 0)) /\
    (forall bufsize w m,
        malloc_succeeds w = true -> proc_cpuinfo w = None ->
        parse_proc_cpuinfo J bufsize w m = Some (true, 0)) /\
    (forall bufsize ls tail m,
        forallb (line_fits bufsize) ls = true -> line_fits bufsize tail = true ->
        parse_proc_cpuinfo J bufsize
          {| malloc_succeeds := true; proc_cpuinfo := Some (unlines ls ++ tail) |} m
        = Some (true, if announces ls || check_feature tail "loongson-mmi"
                      then J else 0)) /\
    (forall bufsize ls run rest m,
        1 <= bufsize -> forallb (line_fits bufsize) ls = true ->
        strchr run LF = false ->
        bufsize - 1 <= Z.of_nat (String.length run) ->
        parse_proc_cpuinfo J bufsize
          {| malloc_succeeds := true;
             proc_cpuinfo := Some (unlines ls ++ run ++ rest) |} m
        = Some (false, if announces ls then J else 0)) /\
    (exists k ok m,
        (k <= 10)%nat /\
        jpeg_simd_cpu_support J Linux env = Some m /\
        (forall j, (j < k)%nat -> exists mj, attempt_fails J env j mj) /\
        (ok = true \/ k = 10%nat) /\
        forall m_before,
          parse_proc_cpuinfo J (1024 * 2 ^ Z.of_nat k) (env k) m_before = Some (ok, m)) /\
    (forall k ls tail,
        (k <= 10)%nat ->
        (forall j, (j < k)%nat -> exists mj, attempt_fails J env j mj) ->
        env k = {| malloc_succeeds := true;
                   proc_cpuinfo := Some (unlines ls ++ tail) |} ->
        forallb (line_fits (1024 * 2 ^ Z.of_nat k)) ls = true ->
        line_fits (1024 * 2 ^ Z.of_nat k) tail = true ->
        announces ls || check_feature tail "loongson-mmi" = false ->
        jpeg_simd_cpu_support J Linux env = Some 0).
Proof.
  intros J env.
  destruct (linux_outcome J env) as (k & ok & m & Hk & Hr & Hp & Hf & Hs).
  split; [|split; [|split; [|split; [|split; [|split; [|split]]]]]].
  - intros [| |].
    + exists J. split; [|right; reflexivity].
      unfold jpeg_simd_cpu_support. rewrite Z.lor_0_l. reflexivity.
    + exists m. split; [exact Hr | exact (parse_mask J _ _ _ _ _ Hp)].
    + exists 0. split; [reflexivity | left; reflexivity].
  - intros bufsize w m0. apply parse_resets.
  - intros bufsize w m0 Hm. unfold parse_proc_cpuinfo. rewrite Hm. reflexivity.
  - intros bufsize w m0 Hm Hnone.
    rewrite (parse_unopenable J bufsize w m0 Hnone), Hm. reflexivity.
  - intros bufsize ls tail m0. apply parse_fitting.
  - intros bufsize ls run rest m0. apply parse_overlong.
  - exists k, ok, m. split; [exact Hk | split; [exact Hr|]].
    split; [exact Hf | split; [exact Hs|]].
    intros m_before. rewrite parse_resets. exact Hp.
  - intros k' ls tail Hk' Hfail Hw Hls Htail Hnone.
    apply (linux_result J env k' true 0 Hk' Hfail); [|left; reflexivity].
    change (1024 * 2 ^ Z.of_nat k') with (attempt_bufsize k') in *.
    rewrite Hw, (parse_fitting J _ ls tail 0 Hls Htail), Hnone. reflexivity.
Qed.

(** The last part of the theorem at work: the first call sees the feature
    and then a line of 1500 characters, and fails with the bit set; the
    second call finds a file that no longer lists the feature, and the
    probe returns 0. *)
Lemma mask_is_zero_or_mmi_witness :
  parse_proc_cpuinfo 256 1024
    {| malloc_succeeds := true;
       proc_cpuinfo :=
         Some ("ASEs implemented: loongson-mmi"
               ++ String LF (fill "x" 1500 ++ String LF "")) |} 0
  = Some (false, 256) /\
  jpeg_simd_cpu_support 256 Linux
    (fun k =>
       match k with
       | O => {| malloc_succeeds := true;
                 proc_cpuinfo :=
                   Some ("ASEs implemented: loongson-mmi"
                         ++ String LF (fill "x" 1500 ++ String LF "")) |}
       | S _ => {| malloc_succeeds := true;
                   proc_cpuinfo := Some (unlines ["ASEs implemented: vz"] ++ "") |}
       end)
  = Some 0.
Proof.
  split; [vm_compute; reflexivity|].
  refine (proj2 (proj2 (proj2 (proj2 (proj2 (proj2 (proj2
            (mask_is_zero_or_mmi 256 _)))))))
            1%nat ["ASEs implemented: vz"] "" _ _ _ _ _ _).
  - lia.
  - intros j Hj. assert (j = 0)%nat as -> by lia.
    exists 256. vm_compute. reflexivity.
  - reflexivity.
  - reflexivity.
  - reflexivity.
  - reflexivity.
Defined.

(** X6.  [parse_proc_cpuinfo] returns for every buffer size, world and
    incoming mask (the line loop ends before the stream's length is used
    up), and the mask it leaves is 0 or [JSIMD_MMI]. *)
Theorem parse_always_returns :
  forall (J bufsize : Z) (w : World) (m : Z),
    exists ok mask,
      parse_proc_cpuinfo J bufsize w m = Some (ok, mask) /\
      (mask = 0 \/ mask = J).
Proof.
  intros J bufsize w m.
  destruct (parse_total J bufsize w m) as (ok & mask & H).
  exists ok, mask. split; [exact H | exact (parse_mask J _ _ _ _ _ H)].
Qed.

(** X7.  On a file made of lines without NUL that each fit, newline
    included, into [bufsize - 1] bytes, followed by an unterminated tail
    that fits as well, [parse_proc_cpuinfo] returns TRUE and leaves
    [JSIMD_MMI] exactly when [check_feature] accepts one of the lines (or
    the tail), zero otherwise. *)
Theorem parse_reads_fitting_lines :
  forall (J bufsize : Z) (ls : list string) (tail : string) (m : Z),
    forallb (line_fits bufsize) ls = true ->
    line_fits bufsize tail = true ->
    parse_proc_cpuinfo J bufsize
      {| malloc_succeeds := true; proc_cpuinfo := Some (unlines ls ++ tail) |} m
    = Some (true, if announces ls || check_feature tail "loongson-mmi"
                  then J else 0).
Proof. exact parse_fitting. Qed.

Lemma parse_reads_fitting_lines_witness :
  parse_proc_cpuinfo 256 64
    {| malloc_succeeds := true;
       proc_cpuinfo :=
         Some (unlines ["processor: 0"; "ASEs implemented: vz loongson-mmi"]
               ++ "model: x") |} 0
  = Some (true,
          if announces ["processor: 0"; "ASEs implemented: vz loongson-mmi"]
             || check_feature "model: x" "loongson-mmi"
          then 256 else 0).
Proof.
  apply (parse_reads_fitting_lines 256 64
           ["processor: 0"; "ASEs implemented: vz loongson-mmi"] "model: x" 0);
    reflexivity.
Defined.

(** X8.  On a file in which lines that fit are followed by a stretch of at
    least [bufsize - 1] characters without a newline, the call returns
    FALSE, and the mask it leaves has [JSIMD_MMI] exactly when one of the
    lines before the stretch announced the feature. *)
Theorem parse_fails_on_overlong_line :
  forall (J bufsize : Z) (ls : list string) (run rest : string) (m : Z),
    1 <= bufsize ->
    forallb (line_fits bufsize) ls = true ->
    strchr run LF = false ->
    bufsize - 1 <= Z.of_nat (String.length run) ->
    parse_proc_cpuinfo J bufsize
      {| malloc_succeeds := true;
         proc_cpuinfo := Some (unlines ls ++ run ++ rest) |} m
    = Some (false, if announces ls then J else 0).
Proof. exact parse_overlong. Qed.

Lemma parse_fails_on_overlong_line_witness :
  parse_proc_cpuinfo 256 8
    {| malloc_succeeds := true;
       proc_cpuinfo := Some (unlines ["ab"] ++ "0123456" ++ String LF "") |} 0
  = Some (false, if announces ["ab"] then 256 else 0).
Proof.
  apply (parse_fails_on_overlong_line 256 8 ["ab"] "0123456" (String LF "") 0);
    [lia | reflexivity | reflexivity | simpl; lia].
Defined.

(** X9.  A call that succeeds with a buffer of at least 2 bytes succeeds
    with every larger buffer, and leaves the same mask. *)
Theorem larger_buffer_same_result :
  forall (J b b' : Z) (w : World) (m m' mask : Z),
    2 <= b -> b <= b' ->
    parse_proc_cpuinfo J b w m = Some (true, mask) ->
    parse_proc_cpuinfo J b' w m' = Some (true, mask).
Proof. exact parse_grow. Qed.

Lemma larger_buffer_same_result_witness :
  parse_proc_cpuinfo 256 128
    {| malloc_succeeds := true;
       proc_cpuinfo := Some ("ASEs implemented: loongson-mmi" ++ String LF "") |} 0
  = Some (true, 256).
Proof.
  apply (larger_buffer_same_result 256 64 128 _ 0 0 256);
    [lia | lia | vm_compute; reflexivity].
Defined.

(** X10.  When the world does not change between calls, the retries do
    not change the answer: if a call with some buffer between 2 bytes and
    1 MiB succeeds, [jpeg_simd_cpu_support] returns the mask of that
    call. *)
Theorem probe_equals_a_sufficient_call :
  forall (J : Z) (w : World) (b mask : Z),
    2 <= b -> b <= SOMEWHAT_SANE_PROC_CPUINFO_SIZE_LIMIT ->
    parse_proc_cpuinfo J b w 0 = Some (true, mask) ->
    jpeg_simd_cpu_support J Linux (always w) = Some mask.
Proof. exact probe_sufficient. Qed.

Lemma probe_equals_a_sufficient_call_witness :
  jpeg_simd_cpu_support 256 Linux
    (always {| malloc_succeeds := true;
               proc_cpuinfo :=
                 Some ("ASEs implemented: loongson-mmi" ++ String LF "") |})
  = Some 256.
Proof.
  apply (probe_equals_a_sufficient_call 256 _ 64 256);
    [lia | unfold SOMEWHAT_SANE_PROC_CPUINFO_SIZE_LIMIT; lia
     | vm_compute; reflexivity].
Defined.

(** X11.  On a readable file whose lines (without NUL) each fit into the
    1 MiB buffer, in a world that does not change and with memory
    available, [jpeg_simd_cpu_support] returns [JSIMD_MMI] exactly when
    [check_feature] accepts one of the lines, and zero otherwise. *)
Theorem probe_detects_on_fitting_lines :
  forall (J : Z) (ls : list string) (tail : string),
    forallb (line_fits SOMEWHAT_SANE_PROC_CPUINFO_SIZE_LIMIT) ls = true ->
    line_fits SOMEWHAT_SANE_PROC_CPUINFO_SIZE_LIMIT tail = true ->
    jpeg_simd_cpu_support J Linux
      (always {| malloc_succeeds := true;
                 proc_cpuinfo := Some (unlines ls ++ tail) |})
    = Some (if announces ls || check_feature tail "loongson-mmi" then J else 0).
Proof. exact probe_on_fitting_lines. Qed.

Lemma probe_detects_on_fitting_lines_witness :
  jpeg_simd_cpu_support 256 Linux
    (always {| malloc_succeeds := true;
               proc_cpuinfo :=
                 Some (unlines ["processor: 0"; "ASEs implemented: vz loongson-mmi"]
                       ++ "") |})
  = Some (if announces ["processor: 0"; "ASEs implemented: vz loongson-mmi"]
             || check_feature "" "loongson-mmi"
          then 256 else 0).
Proof.
  apply (probe_detects_on_fitting_lines 256
           ["processor: 0"; "ASEs implemented: vz loongson-mmi"] "");
    reflexivity.
Defined.

(** X12.  If, after lines that fit into 1024 bytes, the file has a stretch
    of at least 2^20 - 1 characters without a newline, then each of the
    eleven calls, with buffers of 1024 * 2^k bytes for k = 0 .. 10, fails,
    leaving [JSIMD_MMI] exactly when one of the lines before the stretch
    announced the feature; the probe gives up and returns that mask. *)
Theorem probe_gives_up_on_overlong_line :
  forall (J : Z) (ls : list string) (run rest : string),
    forallb (line_fits 1024) ls = true ->
    strchr run LF = false ->
    SOMEWHAT_SANE_PROC_CPUINFO_SIZE_LIMIT - 1 <= Z.of_nat (String.length run) ->
    (forall k, (k <= 10)%nat ->
       parse_proc_cpuinfo J (1024 * 2 ^ Z.of_nat k)
         {| malloc_succeeds := true;
            proc_cpuinfo := Some (unlines ls ++ run ++ rest) |} 0
       = Some (false, if announces ls then J else 0)) /\
    jpeg_simd_cpu_support J Linux
      (always {| malloc_succeeds := true;
                 proc_cpuinfo := Some (unlines ls ++ run ++ rest) |})
    = Some (if announces ls then J else 0).
Proof.
  intros J ls run rest Hls Hrun Hlen. split.
  - intros k Hk. exact (calls_fail_on_overlong_line J ls run rest k Hls Hrun Hlen Hk).
  - exact (probe_on_overlong_line J ls run rest Hls Hrun Hlen).
Qed.

Lemma probe_gives_up_on_overlong_line_witness :
  (forall k, (k <= 10)%nat ->
     parse_proc_cpuinfo 256 (1024 * 2 ^ Z.of_nat k)
       {| malloc_succeeds := true;
          proc_cpuinfo :=
            Some (unlines ["ASEs implemented: loongson-mmi"]
                  ++ fill "x" (Z.to_nat 1048575) ++ "") |} 0
     = Some (false, if announces ["ASEs implemented: loongson-mmi"]
                    then 256 else 0)) /\
  jpeg_simd_cpu_support 256 Linux
    (always {| malloc_succeeds := true;
               proc_cpuinfo :=
                 Some (unlines ["ASEs implemented: loongson-mmi"]
                       ++ fill "x" (Z.to_nat 1048575) ++ "") |})
  = Some (if announces ["ASEs implemented: loongson-mmi"] then 256 else 0).
Proof.
  apply (probe_gives_up_on_overlong_line 256 ["ASEs implemented: loongson-mmi"]
           (fill "x" (Z.to_nat 1048575)) "").
  - reflexivity.
  - apply strchr_fill. reflexivity.
  - rewrite length_fill. unfold SOMEWHAT_SANE_PROC_CPUINFO_SIZE_LIMIT. lia.
Defined.

(** X13.  If no call gets its line buffer, the probe makes its eleven
    calls, gives up and returns zero, whatever the file holds. *)
Theorem probe_without_buffer_reports_nothing :
  forall (J : Z) (env : nat -> World),
    (forall k, (k <= 10)%nat -> malloc_succeeds (env k) = false) ->
    jpeg_simd_cpu_support J Linux env = Some 0.
Proof. exact probe_without_memory. Qed.

Lemma probe_without_buffer_reports_nothing_witness :
  jpeg_simd_cpu_support 256 Linux
    (always {| malloc_succeeds := false;
               proc_cpuinfo :=
                 Some ("ASEs implemented: loongson-mmi" ++ String LF "") |})
  = Some 0.
Proof.
  apply (probe_without_buffer_reports_nothing 256).
  intros k Hk. reflexivity.
Defined.

(** X14.  The probe never makes more than eleven calls: its result, on
    every build, depends on the worlds of the calls number 0 to 10 only. *)
Theorem probe_makes_at_most_11_calls :
  forall (J : Z) (b : Build) (env env' : nat -> World),
    (forall k, (k <= 10)%nat -> env k = env' k) ->
    jpeg_simd_cpu_support J b env = jpeg_simd_cpu_support J b env'.
Proof. exact probe_reads_11_worlds. Qed.

Lemma probe_makes_at_most_11_calls_witness :
  jpeg_simd_cpu_support 256 Linux
    (always {| malloc_succeeds := false; proc_cpuinfo := None |})
  = jpeg_simd_cpu_support 256 Linux
      (fun k => if (k <=? 10)%nat
                then {| malloc_succeeds := false; proc_cpuinfo := None |}
                else {| malloc_succeeds := true;
                        proc_cpuinfo := Some "ASEs implemented: loongson-mmi" |}).
Proof.
  apply (probe_makes_at_most_11_calls 256 Linux).
  intros k Hk. unfold always.
  destruct (Nat.leb_spec k 10); [reflexivity | lia].
Defined.

(* ===================================================================== *)
(** * turbojpeg.h: more on padding and scaling *)
(* ===================================================================== *)

Section PadAndScale.

Lemma TJPAD_value w :
  INT_MIN <= w -> w + 3 <= INT_MAX ->
  TJPAD w = Some (4 * ((w + 3) / 4)).
Proof.
  intros Hl Hu. unfold TJPAD, int_add, int_bind.
  rewrite int_result_in_range by (unfold INT_MIN, INT_MAX in *; lia).
  rewrite land_lnot_3. reflexivity.
Qed.

Lemma TJSCALED_value d sf :
  0 <= d -> 1 <= num sf -> 1 <= denom sf ->
  d * num sf + denom sf <= INT_MAX ->
  TJSCALED d sf = Some ((d * num sf + denom sf - 1) / denom sf).
Proof.
  destruct sf as [n dn]. cbn [num denom]. intros Hd Hn Hdn Hmax.
  assert (0 <= d * n) by nia.
  unfold TJSCALED, int_mul, int_add, int_sub, int_div, int_bind. cbn [num denom].
  rewrite (int_result_in_range (d * n)) by (unfold INT_MIN; lia).
  rewrite (int_result_in_range (d * n + dn)) by (unfold INT_MIN; lia).
  rewrite (int_result_in_range (d * n + dn - 1)) by (unfold INT_MIN; lia).
  destruct (dn =? 0) eqn:E; [apply Z.eqb_eq in E; lia|].
  rewrite Z.quot_div_nonneg by lia.
  apply int_result_in_range.
  assert (0 <= (d * n + dn - 1) / dn) by (apply Z.div_pos; lia).
  assert ((d * n + dn - 1) / dn <= d * n + dn - 1)
    by (apply Z.div_le_upper_bound; nia).
  unfold INT_MIN. lia.
Qed.

End PadAndScale.

(** X15.  For every [int] width for which [width + 3] does not overflow,
    [TJPAD] adds at most 3, padding again changes nothing, and the widths
    left unchanged are exactly the multiples of 4. *)
Theorem TJPAD_pads_once :
  forall w : Z,
    INT_MIN <= w -> w + 3 <= INT_MAX ->
    exists p,
      TJPAD w = Some p /\ w <= p < w + 4 /\
      TJPAD p = Some p /\ (p = w <-> w mod 4 = 0).
Proof.
  intros w Hl Hu. exists (4 * ((w + 3) / 4)).
  pose proof (Z.div_mod (w + 3) 4 ltac:(lia)).
  pose proof (Z.mod_pos_bound (w + 3) 4 ltac:(lia)).
  pose proof (Z.div_mod w 4 ltac:(lia)).
  pose proof (Z.mod_pos_bound w 4 ltac:(lia)).
  split; [exact (TJPAD_value w Hl Hu)|]. split; [lia|]. split.
  - rewrite TJPAD_value by (unfold INT_MIN, INT_MAX in *; lia).
    f_equal. f_equal.
    replace (4 * ((w + 3) / 4) + 3) with (3 + ((w + 3) / 4) * 4) by ring.
    rewrite Z.div_add by lia. reflexivity.
  - split; intros Hp.
    + rewrite <- Hp. rewrite Z.mul_comm. apply Z.mod_mul. lia.
    + assert ((w + 3) / 4 = w / 4); [|lia].
      symmetry. apply (Z.div_unique (w + 3) 4 (w / 4) 3); lia.
Qed.

Lemma TJPAD_pads_once_witness :
  exists p,
    TJPAD 35 = Some p /\ 35 <= p < 35 + 4 /\
    TJPAD p = Some p /\ (p = 35 <-> 35 mod 4 = 0).
Proof.
  apply (TJPAD_pads_once 35); [unfold INT_MIN; lia | unfold INT_MAX; lia].
Defined.

(** X16.  [TJPAD] is monotone: a wider row never gets a smaller pitch. *)
Theorem TJPAD_monotone :
  forall w1 w2 : Z,
    INT_MIN <= w1 -> w1 <= w2 -> w2 + 3 <= INT_MAX ->
    exists p1 p2, TJPAD w1 = Some p1 /\ TJPAD w2 = Some p2 /\ p1 <= p2.
Proof.
  intros w1 w2 Hl Hle Hu.
  exists (4 * ((w1 + 3) / 4)), (4 * ((w2 + 3) / 4)).
  split; [apply TJPAD_value; lia|]. split; [apply TJPAD_value; lia|].
  assert ((w1 + 3) / 4 <= (w2 + 3) / 4) by (apply Z.div_le_mono; lia). lia.
Qed.

Lemma TJPAD_monotone_witness :
  exists p1 p2, TJPAD 33 = Some p1 /\ TJPAD 38 = Some p2 /\ p1 <= p2.
Proof.
  apply (TJPAD_monotone 33 38); [unfold INT_MIN; lia | lia | unfold INT_MAX; lia].
Defined.

(** X17.  The factor 1/1 scales every dimension to itself. *)
Theorem TJSCALED_by_one :
  forall d : Z,
    INT_MIN <= d -> d + 1 <= INT_MAX ->
    TJSCALED d {| num := 1; denom := 1 |} = Some d.
Proof.
  intros d Hl Hu. unfold TJSCALED, int_mul, int_add, int_sub, int_div, int_bind.
  cbn [num denom]. rewrite Z.mul_1_r.
  rewrite (int_result_in_range d) by (unfold INT_MAX in *; lia).
  rewrite (int_result_in_range (d + 1)) by (unfold INT_MIN in *; lia).
  replace (d + 1 - 1) with d by ring.
  rewrite (int_result_in_range d) by (unfold INT_MAX in *; lia).
  cbn. rewrite Z.quot_1_r. apply int_result_in_range.
  unfold INT_MAX in *. lia.
Qed.

Lemma TJSCALED_by_one_witness :
  TJSCALED 100 {| num := 1; denom := 1 |} = Some 100.
Proof.
  apply (TJSCALED_by_one 100); [unfold INT_MIN; lia | unfold INT_MAX; lia].
Defined.

(** X18.  With a factor whose numerator and denominator are at least 1,
    and without overflow, [TJSCALED] is monotone in the dimension, scales
    0 to 0, and never scales a dimension of at least 1 down to 0. *)
Theorem TJSCALED_monotone_positive :
  forall (d1 d2 : Z) (sf : tjscalingfactor),
    0 <= d1 -> d1 <= d2 -> 1 <= num sf -> 1 <= denom sf ->
    d2 * num sf + denom sf <= INT_MAX ->
    exists r0 r1 r2,
      TJSCALED 0 sf = Some r0 /\ TJSCALED d1 sf = Some r1 /\
      TJSCALED d2 sf = Some r2 /\
      r0 = 0 /\ r1 <= r2 /\ (1 <= d1 -> 1 <= r1).
Proof.
  intros d1 d2 [n dn] H0 Hle Hn Hdn Hmax. cbn [num denom] in *.
  assert (d1 * n <= d2 * n) by nia.
  assert (0 <= d1 * n) by nia.
  do 3 eexists.
  split; [apply TJSCALED_value; cbn [num denom]; lia|].
  split; [apply TJSCALED_value; cbn [num denom]; lia|].
  split; [apply TJSCALED_value; cbn [num denom]; lia|].
  cbn [num denom]. split; [|split].
  - apply Z.div_small. lia.
  - apply Z.div_le_mono; lia.
  - intros Hpos. apply Z.div_le_lower_bound; nia.
Qed.

Lemma TJSCALED_monotone_positive_witness :
  exists r0 r1 r2,
    TJSCALED 0 {| num := 1; denom := 8 |} = Some r0 /\
    TJSCALED 1 {| num := 1; denom := 8 |} = Some r1 /\
    TJSCALED 100 {| num := 1; denom := 8 |} = Some r2 /\
    r0 = 0 /\ r1 <= r2 /\ (1 <= 1 -> 1 <= r1).
Proof.
  apply (TJSCALED_monotone_positive 1 100 {| num := 1; denom := 8 |});
    cbn [num denom]; unfold INT_MAX; lia.
Defined.

(** X19.  A factor of at most 1 never enlarges a dimension and a factor of
    at least 1 never shrinks it. *)
Theorem TJSCALED_respects_factor :
  forall (d : Z) (sf : tjscalingfactor),
    0 <= d -> 1 <= num sf -> 1 <= denom sf ->
    d * num sf + denom sf <= INT_MAX ->
    exists r,
      TJSCALED d sf = Some r /\
      (num sf <= denom sf -> r <= d) /\
      (denom sf <= num sf -> d <= r).
Proof.
  intros d [n dn] Hd Hn Hdn Hmax. cbn [num denom] in *.
  eexists. split; [apply TJSCALED_value; cbn [num denom]; lia|].
  cbn [num denom]. split; intros H.
  - assert ((d * n + dn - 1) / dn < d + 1); [|lia].
    apply Z.div_lt_upper_bound; nia.
  - apply Z.div_le_lower_bound; nia.
Qed.

Lemma TJSCALED_respects_factor_witness :
  exists r,
    TJSCALED 100 {| num := 3; denom := 8 |} = Some r /\
    (num {| num := 3; denom := 8 |} <= denom {| num := 3; denom := 8 |} -> r <= 100) /\
    (denom {| num := 3; denom := 8 |} <= num {| num := 3; denom := 8 |} -> 100 <= r).
Proof.
  apply (TJSCALED_respects_factor 100 {| num := 3; denom := 8 |});
    cbn [num denom]; unfold INT_MAX; lia.
Defined.

(* ===================================================================== *)
(** * turbojpeg.h: more on the tables and the flag constants *)
(* ===================================================================== *)

Section Tables.

(** A table is read successfully exactly inside its bounds. *)
Lemma aref_defined (t : list Z) (i : Z) :
  aref t i <> None <-> 0 <= i < Z.of_nat (List.length t).
Proof.
  unfold aref. destruct (i <? 0) eqn:E.
  - apply Z.ltb_lt in E. split; [congruence | lia].
  - apply Z.ltb_ge in E. rewrite nth_error_Some. lia.
Qed.

End Tables.

Section Flags.

Variable constants : list Z.

Hypothesis single_bits :
  forallb (fun a => forallb (fun f => Z.land a f =? (if a =? f then f else 0))
                            constants) constants = true.
Hypothesis not_zero : forallb (fun f => negb (f =? 0)) constants = true.

Lemma land_of_constants a f :
  In a constants -> In f constants ->
  Z.land a f = if a =? f then f else 0.
Proof.
  intros Ha Hf. rewrite forallb_forall in single_bits.
  specialize (single_bits a Ha). rewrite forallb_forall in single_bits.
  apply Z.eqb_eq. exact (single_bits f Hf).
Qed.

(** Testing a constant against the OR of a selection tells whether the
    constant was selected. *)
Lemma land_of_selection f : forall selection,
  incl selection constants -> In f constants ->
  Z.land (bitwise_or selection) f = if existsb (Z.eqb f) selection then f else 0.
Proof.
  induction selection as [|a sel IH]; intros Hincl Hf.
  - reflexivity.
  - simpl. rewrite Z.land_lor_distr_l.
    rewrite (land_of_constants a f (Hincl a (or_introl eq_refl)) Hf).
    rewrite IH by (auto; intros x Hx; apply Hincl; right; exact Hx).
    rewrite (Z.eqb_sym f a).
    destruct (a =? f); cbn [orb].
    + destruct (existsb (Z.eqb f) sel); [apply Z.lor_diag | apply Z.lor_0_r].
    + apply Z.lor_0_l.
Qed.

Lemma selected_iff_bit_set f selection :
  incl selection constants -> In f constants ->
  Z.land (bitwise_or selection) f <> 0 <-> In f selection.
Proof.
  intros Hincl Hf. rewrite (land_of_selection f selection Hincl Hf).
  assert (Hnz : f <> 0).
  { rewrite forallb_forall in not_zero. specialize (not_zero f Hf).
    apply negb_true_iff, Z.eqb_neq in not_zero. exact not_zero. }
  destruct (existsb (Z.eqb f) selection) eqn:E.
  - apply existsb_exists in E. destruct E as (x & Hx & Hfx).
    apply Z.eqb_eq in Hfx. subst x. tauto.
  - split; [congruence|]. intros Hin. exfalso.
    assert (existsb (Z.eqb f) selection = true); [|congruence].
    apply existsb_exists. exists f. split; [exact Hin | apply Z.eqb_refl].
Qed.

End Flags.

(** X20.  A format either has none of the red, green and blue offsets, or
    has all three, distinct and inside the pixel; an alpha offset occurs
    only together with them and differs from all three. *)
Theorem channel_offsets_do_not_overlap :
  forall i : Z,
    0 <= i < TJ_NUMPF ->
    exists r g b a size,
      aref tjRedOffset i = Some r /\ aref tjGreenOffset i = Some g /\
      aref tjBlueOffset i = Some b /\ aref tjAlphaOffset i = Some a /\
      aref tjPixelSize i = Some size /\
      ((r = -1 /\ g = -1 /\ b = -1 /\ a = -1) \/
       (0 <= r < size /\ 0 <= g < size /\ 0 <= b < size /\
        r <> g /\ r <> b /\ g <> b /\
        (a = -1 \/ (0 <= a < size /\ a <> r /\ a <> g /\ a <> b)))).
Proof.
  intros i Hi. unfold TJ_NUMPF in Hi.
  each_index i Hi; do 5 eexists;
    (split; [reflexivity|]); (split; [reflexivity|]); (split; [reflexivity|]);
    (split; [reflexivity|]); (split; [reflexivity|]); lia.
Qed.

Lemma channel_offsets_do_not_overlap_witness :
  exists r g b a size,
    aref tjRedOffset 10 = Some r /\ aref tjGreenOffset 10 = Some g /\
    aref tjBlueOffset 10 = Some b /\ aref tjAlphaOffset 10 = Some a /\
    aref tjPixelSize 10 = Some size /\
    ((r = -1 /\ g = -1 /\ b = -1 /\ a = -1) \/
     (0 <= r < size /\ 0 <= g < size /\ 0 <= b < size /\
      r <> g /\ r <> b /\ g <> b /\
      (a = -1 \/ (0 <= a < size /\ a <> r /\ a <> g /\ a <> b)))).
Proof.
  apply (channel_offsets_do_not_overlap 10). unfold TJ_NUMPF. lia.
Defined.

(** X21.  Each alpha format is its X format with the ignored byte turned
    into alpha: RGBA/RGBX, BGRA/BGRX, ABGR/XBGR and ARGB/XRGB have the same
    pixel size and the same red, green and blue offsets, the X format has
    no alpha offset, and the alpha offset of the alpha format is the
    position of the X byte. *)
Theorem alpha_formats_mirror_x_formats :
  Forall
    (fun p : TJPF * TJPF =>
       let (fa, fx) := p in
       let a := TJPF_value fa in
       let x := TJPF_value fx in
       aref tjPixelSize a = aref tjPixelSize x /\
       aref tjRedOffset a = aref tjRedOffset x /\
       aref tjGreenOffset a = aref tjGreenOffset x /\
       aref tjBlueOffset a = aref tjBlueOffset x /\
       aref tjAlphaOffset x = Some (-1) /\
       aref tjAlphaOffset a = Some (position Ignored (pixel_bytes fx)))
    [ (TJPF_RGBA, TJPF_RGBX); (TJPF_BGRA, TJPF_BGRX);
      (TJPF_ABGR, TJPF_XBGR); (TJPF_ARGB, TJPF_XRGB) ].
Proof. repeat constructor. Qed.

(** X22.  The five pixel-format tables are defined exactly on the indices
    0 to [TJ_NUMPF - 1] and the two iMCU tables on 0 to [TJ_NUMSAMP - 1];
    in particular TJPF_UNKNOWN indexes none of the pixel-format tables. *)
Theorem tables_cover_their_enums :
  forall i : Z,
    Forall (fun t => aref t i <> None <-> 0 <= i < TJ_NUMPF)
           [tjRedOffset; tjGreenOffset; tjBlueOffset; tjAlphaOffset; tjPixelSize] /\
    Forall (fun t => aref t i <> None <-> 0 <= i < TJ_NUMSAMP)
           [tjMCUWidth; tjMCUHeight] /\
    Forall (fun t => aref t (TJPF_value TJPF_UNKNOWN) = None)
           [tjRedOffset; tjGreenOffset; tjBlueOffset; tjAlphaOffset; tjPixelSize].
Proof.
  intros i. split; [|split].
  - repeat (apply Forall_cons; [apply aref_defined|]). apply Forall_nil.
  - repeat (apply Forall_cons; [apply aref_defined|]). apply Forall_nil.
  - repeat (apply Forall_cons; [reflexivity|]). apply Forall_nil.
Qed.

(** X23.  The constants meant for a [flags] argument, the deprecated ones
    included, are distinct single bits: in the bitwise OR of any selection
    of them, a flag tests as set exactly when it was selected. *)
Theorem flags_combine_independently :
  forall (selection : list Z) (f : Z),
    incl selection all_flags -> In f all_flags ->
    (Z.land (bitwise_or selection) f <> 0 <-> In f selection).
Proof.
  intros selection f. apply selected_iff_bit_set; reflexivity.
Qed.

Lemma flags_combine_independently_witness :
  Z.land (bitwise_or [TJFLAG_BOTTOMUP; TJFLAG_NOREALLOC]) TJFLAG_FASTDCT <> 0
  <-> In TJFLAG_FASTDCT [TJFLAG_BOTTOMUP; TJFLAG_NOREALLOC].
Proof.
  apply (flags_combine_independently
           [TJFLAG_BOTTOMUP; TJFLAG_NOREALLOC] TJFLAG_FASTDCT).
  - intros x Hx. simpl in Hx. destruct Hx as [<- | [<- | []]]; simpl; tauto.
  - simpl. tauto.
Defined.

(** X24.  The transform options are distinct single bits as well: in the
    bitwise OR of any selection of them, an option tests as set exactly
    when it was selected. *)
Theorem options_combine_independently :
  forall (selection : list Z) (f : Z),
    incl selection all_options -> In f all_options ->
    (Z.land (bitwise_or selection) f <> 0 <-> In f selection).
Proof.
  intros selection f. apply selected_iff_bit_set; reflexivity.
Qed.

Lemma options_combine_independently_witness :
  Z.land (bitwise_or [TJXOPT_CROP; TJXOPT_TRIM]) TJXOPT_TRIM <> 0
  <-> In TJXOPT_TRIM [TJXOPT_CROP; TJXOPT_TRIM].
Proof.
  apply (options_combine_independently [TJXOPT_CROP; TJXOPT_TRIM] TJXOPT_TRIM).
  - intros x Hx. simpl in Hx. destruct Hx as [<- | [<- | []]]; simpl; tauto.
  - simpl. tauto.
Defined.

(** X25.  Rows of every pixel format other than RGB, BGR and GRAY need no
    padding: for these formats [TJPAD(width * tjPixelSize[pf])] is
    [width * tjPixelSize[pf]] itself. *)
Theorem four_byte_rows_need_no_padding :
  forall i w : Z,
    0 <= i < TJ_NUMPF ->
    i <> TJPF_value TJPF_RGB -> i <> TJPF_value TJPF_BGR ->
    i <> TJPF_value TJPF_GRAY ->
    0 <= w -> w * 4 + 3 <= INT_MAX ->
    exists size,
      aref tjPixelSize i = Some size /\ TJPAD (w * size) = Some (w * size).
Proof.
  intros i w Hi H0 H1 H6 Hw Hmax. unfold TJ_NUMPF in Hi. simpl in H0, H1, H6.
  each_index i Hi; try congruence;
    (exists 4; split; [reflexivity|];
     rewrite TJPAD_value by (unfold INT_MIN; lia);
     f_equal; replace (w * 4 + 3) with (3 + w * 4) by ring;
     rewrite Z.div_add by lia; change (3 / 4) with 0; ring).
Qed.

Lemma four_byte_rows_need_no_padding_witness :
  exists size,
    aref tjPixelSize 7 = Some size /\ TJPAD (35 * size) = Some (35 * size).
Proof.
  apply (four_byte_rows_need_no_padding 7 35);
    [unfold TJ_NUMPF; lia | simpl; lia | simpl; lia | simpl; lia | lia
     | unfold INT_MAX; lia].
Defined.
